(** * GitLab issue provider: the common-interfaces service

    A shallow embedding of
    [src/app/features/issue/providers/gitlab/gitlab-common-interfaces.service.ts]
    and the properties of its change detection, batching, link building
    and error handling.

    How the code is read:
    - numbers are integers or [NaN]; a date is held as what
      [new Date(s).getTime()] makes of it;
    - a [string | null] is an [option string], an object type is a
      record, an array is a list;
    - a method is a tree of requests to [ProjectService] and
      [GitlabApiService]: at every [await] (and at every stream the
      method builds on) the collaborator answers or fails, and a
      failure ends the method with that failure; the collaborators
      are any state and any answers;
    - the array handed to [getFreshDataForIssueTasks] is written to, so
      that method also gives the array as it leaves it.

    Layout: JavaScript values and built-ins, the data model, the pure
    part of the service, the collaborators, the methods, the wording of
    the specification, sample inputs; then the properties. *)

From Stdlib Require Import ZArith Lia String Ascii Sorted Permutation.
From stdpp Require Import base list strings pretty.

Local Open Scope string_scope.

(** ** JavaScript numbers, strings and [Array.prototype.sort] *)

Module Js.

(** The numbers of this service are timestamps ([Date.getTime]: an
    integer number of milliseconds, or [NaN] for an invalid date) and
    issue numbers: integer-valued doubles in the safe range, on which
    arithmetic is exact and [Number::toString] is the decimal
    numeral. *)
Inductive num : Type :=
| Num (z : Z)
| NaN.

(** [a > b] *)
Definition gt (a b : num) : bool :=
  match a, b with
  | Num x, Num y => (y <? x)%Z
  | _, _ => false
  end.

(** [a - b] *)
Definition sub (a b : num) : num :=
  match a, b with
  | Num x, Num y => Num (x - y)
  | _, _ => NaN
  end.

(** [String(n)], also what a template literal does with a number. *)
Definition to_string (n : num) : string :=
  match n with
  | Num z => pretty z
  | NaN => "NaN"
  end.

(** [n || 0] on a [number | null]: [null], [NaN] and [0] are falsy. *)
Definition or_zero (n : option num) : num :=
  match n with
  | Some (Num z) => Num z
  | Some NaN | None => Num 0
  end.

(** Truthiness of a [string | null]: the string itself when it is
    neither [null] nor empty. *)
Definition truthy (s : option string) : option string :=
  match s with
  | Some "" | None => None
  | Some s => Some s
  end.

(** [`${s}`] for a [string | null]. *)
Definition template (s : option string) : string :=
  match s with
  | Some s => s
  | None => "null"
  end.

(** [`${s?.replace(...)}`]: the optional call yields [undefined] on
    [null]. *)
Definition template_opt_call (f : string -> string) (s : option string) : string :=
  match s with
  | Some s => f s
  | None => "undefined"
  end.

(** [s.match(/.*\/$/)] is non-null exactly when the last code unit of
    [s] is a slash: the pattern is not anchored at the start and [$]
    (no [m] flag) only matches at the end of the input. *)
Fixpoint ends_with_slash (s : string) : bool :=
  match s with
  | "" => false
  | String c "" => Ascii.eqb c "/"
  | String _ s' => ends_with_slash s'
  end.

(** [s.replace(/%2F/g, '/')]: every occurrence, left to right, the
    replacement text is not scanned again. *)
Fixpoint replace_2F (s : string) : string :=
  match s with
  | String "%" (String "2" (String "F" s')) => String "/" (replace_2F s')
  | String c s' => String c (replace_2F s')
  | "" => ""
  end.

(** [Array.prototype.sort]: stable; [after x y] says that the sort
    comparison of [x] with [y] is positive, so [x] goes behind [y].
    For a consistent comparison every stable sort gives this result;
    for an inconsistent one ECMAScript leaves the order to the
    implementation, and this insertion sort is one such order. *)
Section Sort.
Context {A : Type} (after : A -> A -> bool).

Fixpoint insert (x : A) (l : list A) : list A :=
  match l with
  | [] => [x]
  | y :: l' => if after x y then y :: insert x l' else x :: l
  end.

Definition sort_by (l : list A) : list A := foldr insert [] l.

(** What holds between neighbours of a sorted array. *)
Definition not_after (x y : A) : Prop := after x y = false.
End Sort.

(** The comparison of [sort()] without a comparator: the elements'
    strings, compared by code units. *)
Definition default_after (x y : num) : bool :=
  String.ltb (to_string y) (to_string x).

Definition sort (l : list num) : list num := sort_by default_after l.

(** The comparison of [sort(comparefn)]: a [NaN] from the comparator
    counts as [+0]. *)
Definition comparefn_after {A} (comparefn : A -> A -> num) (x y : A) : bool :=
  gt (comparefn x y) (Num 0).

(** [l[l.length - 1]]; [undefined] on the empty array compares like
    [NaN]. *)
Definition last_elem (l : list num) : num := List.last l NaN.

End Js.

(** ** Data model *)

Module Task.
Record t : Type := mk {
  projectId : option string;
  issueId : option string;
  issueLastUpdated : option Js.num;
  issuePoints : option Z;
  issueWasUpdated : option bool;
  title : string;
}.
End Task.

Module GitlabComment.
Record Author : Type := mkAuthor { username : string }.
Record t : Type := mk {
  author : Author;
  created_at : Js.num;   (* new Date(created_at).getTime() *)
}.
End GitlabComment.

Module GitlabIssue.
Record t : Type := mk {
  number : Js.num;
  title : string;
  updated_at : Js.num;   (* new Date(updated_at).getTime() *)
  weight : option Z;
  comments : list GitlabComment.t;
}.
End GitlabIssue.

Module GitlabCfg.
Record t : Type := mk {
  gitlabBaseUrl : option string;
  project : option string;
  filterUsername : option string;
  isSearchIssuesFromGitlab : bool;
  isAutoPoll : bool;
  isAutoAddToBacklog : bool;
}.
End GitlabCfg.

(** [Partial<Task> & { title: string }] as [getAddTaskData] builds it:
    always these four keys. *)
Module TaskChanges.
Record t : Type := mk {
  title : string;
  issuePoints : option Z;
  issueWasUpdated : bool;
  issueLastUpdated : Js.num;
}.

(** [{ ...c, issueWasUpdated: b }] *)
Definition with_issueWasUpdated (b : bool) (c : t) : t :=
  {| title := title c;
     issuePoints := issuePoints c;
     issueWasUpdated := b;
     issueLastUpdated := issueLastUpdated c |}.
End TaskChanges.

(** What the sources outside this file provide: unary plus on a string
    (ECMAScript's StringToNumber), the constant of [gitlab.const], the
    [truncate] utility and the two result types of [issue.model]. *)
Class Externals : Type := {
  to_number : string -> Js.num;
  GITLAB_BASE_URL : string;
  truncate : string -> string;
  IssueData : Type;
  SearchResultItem : Type;
}.

(** ** The pure part of the service *)

Definition _formatIssueTitle (id : Js.num) (title : string) : string :=
  "#" +:+ Js.to_string id +:+ " " +:+ title.

Definition _formatIssueTitleForSnack `{Externals} (id : Js.num) (title : string) : string :=
  truncate (_formatIssueTitle id title).

Definition getAddTaskData (issue : GitlabIssue.t) : TaskChanges.t :=
  {| TaskChanges.title :=
       _formatIssueTitle (GitlabIssue.number issue) (GitlabIssue.title issue);
     TaskChanges.issuePoints := GitlabIssue.weight issue;
     TaskChanges.issueWasUpdated := false;
     TaskChanges.issueLastUpdated := GitlabIssue.updated_at issue |}.

(** The change detection, written twice in the source (lines 97-112 and
    161-174) with the same text. *)
Definition by_other (filterUsername : string) (comment : GitlabComment.t) : bool :=
  negb (String.eqb (GitlabComment.username (GitlabComment.author comment))
                   filterUsername).

Definition commentsByOthers (cfg : GitlabCfg.t) (issue : GitlabIssue.t)
  : list GitlabComment.t :=
  match GitlabCfg.filterUsername cfg with
  | Some u =>
      if (1 <? String.length u)%nat
      then List.filter (by_other u) (GitlabIssue.comments issue)
      else GitlabIssue.comments issue
  | None => GitlabIssue.comments issue
  end.

Definition candidates (cfg : GitlabCfg.t) (issue : GitlabIssue.t) : list Js.num :=
  (map GitlabComment.created_at (commentsByOthers cfg issue)
     ++ [GitlabIssue.updated_at issue])%list.

Definition updates (cfg : GitlabCfg.t) (issue : GitlabIssue.t) : list Js.num :=
  Js.sort (candidates cfg issue).

Definition lastRemoteUpdate (cfg : GitlabCfg.t) (issue : GitlabIssue.t) : Js.num :=
  Js.last_elem (updates cfg issue).

Definition wasUpdated (cfg : GitlabCfg.t) (task : Task.t) (issue : GitlabIssue.t) : bool :=
  Js.gt (lastRemoteUpdate cfg issue) (Js.or_zero (Task.issueLastUpdated task)).

(** The comparator of line 133 and the in-place sort of the task
    array. *)
Definition issueNumber `{Externals} (task : Task.t) : Js.num :=
  match Task.issueId task with
  | Some s => to_number s
  | None => Js.Num 0          (* +null *)
  end.

Definition byIssueIdDesc `{Externals} (a b : Task.t) : Js.num :=
  Js.sub (issueNumber b) (issueNumber a).

Definition sortTasks `{Externals} (tasks : list Task.t) : list Task.t :=
  Js.sort_by (Js.comparefn_after byIssueIdDesc) tasks.

(** ** Collaborators and effects *)

(** Errors this code raises itself: [new Error(message)], and the
    [TypeError] of a property read on [undefined] or [null]. *)
Inductive js_error : Type :=
| Error (message : string)
| TypeError.

(** A failure reported by a collaborator (a rejected promise, a stream
    that errors). *)
Definition rejection : Type := string.

(** A finished RxJS stream: the values it delivered and how it ended. *)
Inductive stream_end : Type :=
| Completes
| Fails (e : rejection).

Record Observable (A : Type) : Type := mkObservable {
  emits : list A;
  ends : stream_end;
}.
Arguments mkObservable {A} _ _.
Arguments emits {A} _.
Arguments ends {A} _.

Module Rx.
(** [of(a)] *)
Definition of_ {A} (a : A) : Observable A := mkObservable [a] Completes.

(** [from(array)], which is what RxJS makes of an array given where
    it expects a stream: one value per element. *)
Definition from {A} (l : list A) : Observable A := mkObservable l Completes.

(** [source.pipe(catchError(selector))] *)
Definition catchError {A} (selector : rejection -> Observable A)
    (source : Observable A) : Observable A :=
  match ends source with
  | Completes => source
  | Fails e =>
      mkObservable (emits source ++ emits (selector e))%list (ends (selector e))
  end.
End Rx.

Module FreshData.
Record t : Type := mk {
  taskChanges : TaskChanges.t;
  issue : GitlabIssue.t;
  issueTitle : string;
}.
End FreshData.

Module UpdatedIssue.
Record t : Type := mk {
  task : Task.t;
  taskChanges : TaskChanges.t;
  issue : GitlabIssue.t;
}.
End UpdatedIssue.

Section Service.
Context `{Externals}.

(** The requests to [ProjectService] and [GitlabApiService], indexed
    by what they answer.  [_getCfgOnce] is the first value of the
    project's configuration stream; a configuration may be [null]
    (line 73 tests it). *)
Inductive call : Type -> Type :=
| _getCfgOnce (projectId : string) : call (option GitlabCfg.t)
| getById (issueId : Js.num) (cfg : option GitlabCfg.t) : call GitlabIssue.t
| getByIds (ids : list (option string)) (cfg : option GitlabCfg.t)
  : call (list GitlabIssue.t)
| searchIssueInProject (searchTerm : string) (cfg : option GitlabCfg.t)
  : call (Observable (list SearchResultItem))
| getProjectIssues (page : Z) (cfg : option GitlabCfg.t) : call (list IssueData).

(** A method body: it returns, throws, or awaits a collaborator and
    goes on with the answer.  [Exhausted] marks a loop that was given
    too little fuel; [getFreshDataForIssueTasks_total] shows it is
    never reached. *)
Inductive prog (A : Type) : Type :=
| Ret (a : A)
| Throw (e : js_error)
| Exhausted
| Await {R : Type} (c : call R) (k : R -> prog A).
Arguments Ret {A} _.
Arguments Throw {A} _.
Arguments Exhausted {A}.
Arguments Await {A R} _ _.

Fixpoint bind {A B} (m : prog A) (f : A -> prog B) : prog B :=
  match m with
  | Ret a => f a
  | Throw e => Throw e
  | Exhausted => Exhausted
  | Await c k => Await c (fun r => bind (k r) f)
  end.

#[export] Instance prog_ret : MRet prog := @Ret.
#[export] Instance prog_bind : MBind prog := fun A B f m => bind m f.

Definition await {R} (c : call R) : prog R := Await c Ret.

(** A property read on a value that may be [undefined] or [null]. *)
Definition deref {A} (o : option A) : prog A :=
  match o with
  | Some a => Ret a
  | None => Throw TypeError
  end.

(** *** The methods *)

(** [const fixedUrl] of lines 50-52. *)
Definition fixedUrl (gitlabBaseUrl : string) : string :=
  if Js.ends_with_slash gitlabBaseUrl
  then gitlabBaseUrl
  else gitlabBaseUrl +:+ "/".

Definition issueLink (issueId : Js.num) (projectId : string) : prog string :=
  cfg ← await (_getCfgOnce projectId);
  cfg ← deref cfg;
  match Js.truthy (GitlabCfg.gitlabBaseUrl cfg) with
  | Some gitlabBaseUrl =>
      mret (fixedUrl gitlabBaseUrl +:+ Js.template (GitlabCfg.project cfg)
              +:+ "/issues/" +:+ Js.to_string issueId)
  | None =>
      mret (GITLAB_BASE_URL
              +:+ Js.template_opt_call Js.replace_2F (GitlabCfg.project cfg)
              +:+ "/issues/" +:+ Js.to_string issueId)
  end.

Definition searchIssues (searchTerm projectId : string)
  : prog (Observable (list SearchResultItem)) :=
  gitlabCfg ← await (_getCfgOnce projectId);
  match gitlabCfg with
  | Some cfg =>
      if GitlabCfg.isSearchIssuesFromGitlab cfg
      then
        found ← await (searchIssueInProject searchTerm gitlabCfg);
        mret (Rx.catchError (fun _ => Rx.from []) found)
      else mret (Rx.of_ [])
  | None => mret (Rx.of_ [])
  end.

Definition getFreshDataForIssueTask (task : Task.t) : prog (option FreshData.t) :=
  match Js.truthy (Task.projectId task) with
  | None => Throw (Error "No projectId")
  | Some projectId =>
      match Js.truthy (Task.issueId task) with
      | None => Throw (Error "No issueId")
      | Some issueId =>
          cfg ← await (_getCfgOnce projectId);
          issue ← await (getById (to_number issueId) cfg);
          cfg ← deref cfg;
          if wasUpdated cfg task issue
          then
            mret (Some {|
              FreshData.taskChanges :=
                TaskChanges.with_issueWasUpdated true (getAddTaskData issue);
              FreshData.issue := issue;
              FreshData.issueTitle :=
                _formatIssueTitleForSnack (GitlabIssue.number issue)
                                          (GitlabIssue.title issue) |})
          else mret None
      end
  end.

Definition paramsCount : nat := 59.

(** The inner [for] of lines 146-148: [n] is how far [j] still is
    from [paramsCount]. *)
Fixpoint collect_ids (tasks : list Task.t) (n i : nat) (ids : list (option string))
  : nat * list (option string) :=
  match n with
  | 0 => (i, ids)
  | S n' =>
      match tasks !! i with
      | Some t => collect_ids tasks n' (S i) (ids ++ [Task.issueId t])%list
      | None => (i, ids)
      end
  end.

(** The [while] of lines 144-152. *)
Fixpoint fetch_loop (tasks : list Task.t) (cfg : option GitlabCfg.t)
    (fuel i : nat) (issues : list GitlabIssue.t) : prog (list GitlabIssue.t) :=
  if (i <? length tasks)%nat then
    match fuel with
    | 0 => Exhausted
    | S fuel' =>
        let '(i', ids) := collect_ids tasks paramsCount i [] in
        batch ← await (getByIds ids cfg);
        fetch_loop tasks cfg fuel' i' (issues ++ batch)%list
    end
  else Ret issues.

(** One round of the [for] of lines 160-186. *)
Definition check_one (tasks : list Task.t) (cfg : option GitlabCfg.t)
    (issues : list GitlabIssue.t) (i : nat) (updatedIssues : list UpdatedIssue.t)
  : prog (list UpdatedIssue.t) :=
  issue ← deref (issues !! i);
  cfg ← deref cfg;
  task ← deref (tasks !! i);
  if wasUpdated cfg task issue
  then
    mret (updatedIssues ++ [{|
      UpdatedIssue.task := task;
      UpdatedIssue.taskChanges :=
        TaskChanges.with_issueWasUpdated true (getAddTaskData issue);
      UpdatedIssue.issue := issue |}])%list
  else mret updatedIssues.

Fixpoint check_loop (tasks : list Task.t) (cfg : option GitlabCfg.t)
    (issues : list GitlabIssue.t) (indices : list nat)
    (updatedIssues : list UpdatedIssue.t) : prog (list UpdatedIssue.t) :=
  match indices with
  | [] => Ret updatedIssues
  | i :: indices' =>
      updatedIssues ← check_one tasks cfg issues i updatedIssues;
      check_loop tasks cfg issues indices' updatedIssues
  end.

(** The body after the in-place sort; [tasks] is the sorted array. *)
Definition refresh_sorted (tasks : list Task.t) : prog (list UpdatedIssue.t) :=
  first ← deref (tasks !! 0%nat);
  match Js.truthy (Task.projectId first) with
  | None => Throw (Error "No projectId")
  | Some projectId =>
      cfg ← await (_getCfgOnce projectId);
      issues ← fetch_loop tasks cfg (length tasks) 0 [];
      check_loop tasks cfg issues (seq 0 (length tasks)) []
  end.

(** [tasks.sort(...)] writes into the caller's array before anything
    else happens, so the method is the array as it leaves it together
    with what the body does. *)
Definition getFreshDataForIssueTasks (tasks : list Task.t)
  : list Task.t * prog (list UpdatedIssue.t) :=
  let tasks := sortTasks tasks in
  (tasks, refresh_sorted tasks).

Definition getNewIssuesToAddToBacklog (projectId : string)
    (allExistingIssueIds : list Js.num + list string) : prog (list IssueData) :=
  cfg ← await (_getCfgOnce projectId);
  await (getProjectIssues 1 cfg).

(** *** Running a method against its collaborators

    The collaborators are a state [W] and an answer to every request;
    a run gives the requests made, with their answers, and how the
    method ended. *)
Inductive event : Type :=
| Ev {R : Type} (c : call R) (answer : rejection + R).

Inductive outcome (A : Type) : Type :=
| Returned (a : A)
| Threw (e : js_error)
| Rejected (e : rejection)
| OutOfFuel.
Arguments Returned {A} _.
Arguments Threw {A} _.
Arguments Rejected {A} _.
Arguments OutOfFuel {A}.

Section Run.
Context {W : Type} (respond : forall R, call R -> W -> (rejection + R) * W).

Fixpoint exec {A} (p : prog A) (w : W) : list event * outcome A * W :=
  match p with
  | Ret a => ([], Returned a, w)
  | Throw e => ([], Threw e, w)
  | Exhausted => ([], OutOfFuel, w)
  | Await c k =>
      let '(answer, w') := respond _ c w in
      match answer with
      | inl e => ([Ev c answer], Rejected e, w')
      | inr r => let '(trace, o, w'') := exec (k r) w' in (Ev c answer :: trace, o, w'')
      end
  end.

Definition trace {A} (p : prog A) (w : W) : list event := (exec p w).1.1.
Definition result {A} (p : prog A) (w : W) : outcome A := (exec p w).1.2.
End Run.

(** A request without its answer, and the issues a [getByIds] answer
    brought. *)
Inductive request : Type :=
| Req {R : Type} (c : call R).

Definition request_of (e : event) : request :=
  match e with Ev c _ => Req c end.

Definition fetched (e : event) : list GitlabIssue.t :=
  match e with
  | Ev c answer =>
      match c in call R return rejection + R -> list GitlabIssue.t with
      | getByIds _ _ =>
          fun answer => match answer with inr batch => batch | inl _ => [] end
      | _ => fun _ => []
      end answer
  end.

End Service.

Arguments Ret {_ A} _.
Arguments Throw {_ A} _.
Arguments Exhausted {_ A}.
Arguments Await {_ A R} _ _.
Arguments Returned {A} _.
Arguments Threw {A} _.
Arguments Rejected {A} _.
Arguments OutOfFuel {A}.

(** ** The specification's wording, to compare the code with *)

Module Spec.

(** "take the maximum": the numeric one ([Math.max], which is [NaN]
    as soon as one argument is). *)
Definition max (a b : Js.num) : Js.num :=
  match a, b with
  | Js.Num x, Js.Num y => Js.Num (Z.max x y)
  | _, _ => Js.NaN
  end.

Definition lastRemoteUpdate (cfg : GitlabCfg.t) (issue : GitlabIssue.t) : Js.num :=
  foldr max (GitlabIssue.updated_at issue)
    (map GitlabComment.created_at (commentsByOthers cfg issue)).

(** "a change is detected iff lastRemoteUpdate > task.issueLastUpdated
    (treat missing issueLastUpdated as 0)" *)
Definition change_detected (cfg : GitlabCfg.t) (task : Task.t) (issue : GitlabIssue.t) : bool :=
  Js.gt (lastRemoteUpdate cfg issue) (Js.or_zero (Task.issueLastUpdated task)).

(** "sort ascending" *)
Definition ascending (l : list Js.num) : Prop :=
  Sorted (fun a b => Js.gt a b = false) l.

(** The order the specification sorts by, [(a, b) => a - b] in
    JavaScript. *)
Definition numerically_after (x y : Z) : bool := (y <? x)%Z.

(** Numbers with equally many decimal digits, and timestamps of
    [k + 1] digits. *)
Inductive same_width : N -> N -> Prop :=
| same_width_digit (x y : N) :
    (0 < x < 10)%N -> (0 < y < 10)%N -> same_width x y
| same_width_more (x y : N) :
    same_width (x `div` 10)%N (y `div` 10)%N -> same_width x y.

Definition digits (k : nat) (t : Js.num) : Prop :=
  exists z : Z, t = Js.Num z /\ (10 ^ Z.of_nat k <= z < 10 ^ Z.of_nat (S k))%Z.

(** Strings without a percent sign. *)
Fixpoint no_percent (s : string) : bool :=
  match s with
  | "" => true
  | String c s' => negb (Ascii.eqb c "%") && no_percent s'
  end.

(** How many slashes a string ends with. *)
Fixpoint trailing_slashes (s : string) : nat :=
  match s with
  | "" => 0
  | String c s' =>
      let n := trailing_slashes s' in
      if Ascii.eqb c "/" && (n =? String.length s')%nat then S n else n
  end.

(** "chunks of at most 59": the list cut every [paramsCount]
    elements; [fuel] bounds the number of chunks. *)
Fixpoint batches {A} (fuel : nat) (l : list A) : list (list A) :=
  match fuel, l with
  | 0, _ | _, [] => []
  | S fuel', _ => take 59 l :: batches fuel' (drop 59 l)
  end.

Fixpoint batch_sizes (fuel n : nat) : list nat :=
  match fuel, n with
  | 0, _ | _, 0 => []
  | S fuel', _ => Nat.min 59 n :: batch_sizes fuel' (n - 59)
  end.

(** "change detection per task/issue pair at matching index" *)
Definition entry (cfg : GitlabCfg.t) (pair : Task.t * GitlabIssue.t)
  : option UpdatedIssue.t :=
  if wasUpdated cfg pair.1 pair.2
  then Some {|
    UpdatedIssue.task := pair.1;
    UpdatedIssue.taskChanges :=
      TaskChanges.with_issueWasUpdated true (getAddTaskData pair.2);
    UpdatedIssue.issue := pair.2 |}
  else None.

Definition entries (cfg : GitlabCfg.t) (tasks : list Task.t)
    (issues : list GitlabIssue.t) : list UpdatedIssue.t :=
  omap (entry cfg) (zip tasks issues).

(** The payload of section 4.1, step 5. *)
Definition payload (issue : GitlabIssue.t) : TaskChanges.t :=
  {| TaskChanges.title :=
       "#" +:+ Js.to_string (GitlabIssue.number issue)
           +:+ " " +:+ GitlabIssue.title issue;
     TaskChanges.issuePoints := GitlabIssue.weight issue;
     TaskChanges.issueWasUpdated := true;
     TaskChanges.issueLastUpdated := GitlabIssue.updated_at issue |}.

(** The requests a list of batches stands for. *)
Definition batch_requests `{Externals} (cfg : option GitlabCfg.t)
    (batches : list (list Task.t)) : list request :=
  map (fun batch => Req (getByIds (map Task.issueId batch) cfg)) batches.

(** How the comparison of lines 160-186 ends, for any configuration
    and any number of fetched issues: a [null] configuration or a
    missing issue is a [TypeError]. *)
Definition check_outcome (cfg : option GitlabCfg.t) (tasks : list Task.t)
    (issues : list GitlabIssue.t) : outcome (list UpdatedIssue.t) :=
  match tasks, cfg with
  | [], _ => Returned []
  | _, Some c =>
      if decide (length tasks <= length issues)
      then Returned (entries c tasks issues)
      else Threw TypeError
  | _, None => Threw TypeError
  end.

End Spec.

(** ** The remaining methods *)

Section Flags.
Context `{Externals}.

(** [isGitlabEnabled] of [is-gitlab-enabled.ts], which is outside this
  file: any predicate on a configuration. *)
Variable isGitlabEnabled : option GitlabCfg.t -> bool.

Definition isEnabled (cfg : option GitlabCfg.t) : bool := isGitlabEnabled cfg.

(** [isEnabled(cfg) && cfg.isAutoAddToBacklog]: the flag is read only
  when the left side is true. *)
Definition isBacklogPollingEnabledForProjectOnce (projectId : string) : prog bool :=
cfg ← await (_getCfgOnce projectId);
if isEnabled cfg
then cfg ← deref cfg; mret (GitlabCfg.isAutoAddToBacklog cfg)
else mret false.

Definition isIssueRefreshEnabledForProjectOnce (projectId : string) : prog bool :=
cfg ← await (_getCfgOnce projectId);
if isEnabled cfg
then cfg ← deref cfg; mret (GitlabCfg.isAutoPoll cfg)
else mret false.
End Flags.

(** [getById$] of the service (line 64); [getById] is the request to
    the API of the same name. *)
Definition getById' `{Externals} (issueId : Js.num) (projectId : string)
  : prog GitlabIssue.t :=
  gitlabCfg ← await (_getCfgOnce projectId);
  await (getById issueId gitlabCfg).

(** ** Words for the properties *)

Module Expect.

(** An encoded path separator somewhere in a string. *)
Fixpoint occurs_2F (s : string) : bool :=
match s with
| String "%" (String "2" (String "F" _)) => true
| String _ s' => occurs_2F s'
| "" => false
end.

(** An answer that is not a failure. *)
Definition answered `{Externals} (e : event) : Prop :=
match e with Ev _ (inr _) => True | Ev _ (inl _) => False end.

(** The number of batches for [n] tasks. *)
Definition batch_count (n : nat) : nat := (n + 58) / 59.

End Expect.

(** ** Sample inputs *)

Module Sample.

(** Decimal numerals, as issue ids are written; enough of unary plus
    for the samples below. *)
Definition digit (c : ascii) : option Z :=
  let n := Z.of_N (N_of_ascii c) in
  if ((48 <=? n) && (n <=? 57))%Z then Some (n - 48)%Z else None.

Fixpoint decimal (acc : Z) (s : string) : Js.num :=
  match s with
  | "" => Js.Num acc
  | String c s' =>
      match digit c with
      | Some d => decimal (10 * acc + d) s'
      | None => Js.NaN
      end
  end.

Definition externals : Externals := {|
  to_number := decimal 0;
  GITLAB_BASE_URL := "https://gitlab.com/";
  truncate := fun s => s;
  IssueData := GitlabIssue.t;
  SearchResultItem := string;
|}.

Definition cfg : GitlabCfg.t := {|
  GitlabCfg.gitlabBaseUrl := None;
  GitlabCfg.project := Some "group%2Fapp";
  GitlabCfg.filterUsername := Some "me";
  GitlabCfg.isSearchIssuesFromGitlab := true;
  GitlabCfg.isAutoPoll := true;
  GitlabCfg.isAutoAddToBacklog := true;
|}.

(** A self-hosted instance whose base URL was typed with two
    slashes. *)
Definition doubled_slash_cfg : GitlabCfg.t :=
  {| GitlabCfg.gitlabBaseUrl := Some "https://git.example.com//";
     GitlabCfg.project := Some "group%2Fapp";
     GitlabCfg.filterUsername := None;
     GitlabCfg.isSearchIssuesFromGitlab := false;
     GitlabCfg.isAutoPoll := false;
     GitlabCfg.isAutoAddToBacklog := false |}.

Definition comment (who : string) (at_ : Z) : GitlabComment.t :=
  {| GitlabComment.author := GitlabComment.mkAuthor who;
     GitlabComment.created_at := Js.Num at_ |}.

Definition task (issueId : string) (lastUpdated : Z) : Task.t := {|
  Task.projectId := Some "P1";
  Task.issueId := Some issueId;
  Task.issueLastUpdated := Some (Js.Num lastUpdated);
  Task.issuePoints := None;
  Task.issueWasUpdated := Some false;
  Task.title := "";
|}.

Definition issue (n : Z) (updated : Z) (cs : list GitlabComment.t) : GitlabIssue.t := {|
  GitlabIssue.number := Js.Num n;
  GitlabIssue.title := "Fix bug";
  GitlabIssue.updated_at := Js.Num updated;
  GitlabIssue.weight := Some 3%Z;
  GitlabIssue.comments := cs;
|}.

(** Collaborators that always answer: the configuration [theCfg],
    the issue [issue_of n] for the number [n], the stream [found] for
    a search.  Their state counts the requests. *)
Section World.
Context (theCfg : option GitlabCfg.t) (issue_of : Js.num -> GitlabIssue.t)
        (found : Observable (list string)).

Definition plus (id : option string) : Js.num :=
  match id with Some s => decimal 0 s | None => Js.Num 0 end.

Definition respond (R : Type) (c : @call externals R) (w : nat)
  : (rejection + R) * nat :=
  match c in call R return (rejection + R) * nat with
  | _getCfgOnce _ => (inr theCfg, S w)
  | getById n _ => (inr (issue_of n), S w)
  | getByIds ids _ => (inr (map (fun id => issue_of (plus id)) ids), S w)
  | searchIssueInProject _ _ => (inr found, S w)
  | getProjectIssues page _ => (inr [issue_of (Js.Num page)], S w)
  end.
End World.

(** An issue updated one millisecond after its last comment, across
    the change from twelve to thirteen digits (2001-09-09T01:46:40Z),
    and a task last synchronised at the comment. *)
Definition old_issue (n : Js.num) : GitlabIssue.t :=
  {| GitlabIssue.number := n;
     GitlabIssue.title := "Fix bug";
     GitlabIssue.updated_at := Js.Num 1000000000000;
     GitlabIssue.weight := Some 3%Z;
     GitlabIssue.comments := [comment "bob" 999999999999] |}.

Definition old_task : Task.t := task "5" 999999999999.

(** 130 tasks of one project, issues 1 to 130, none synchronised
    yet; every issue was updated at 1700000000000 + its number. *)
Definition tasks130 : list Task.t :=
  map (fun n => task (pretty n) 0) (seq 1 130).

Definition recent_issue (n : Js.num) : GitlabIssue.t :=
  {| GitlabIssue.number := n;
     GitlabIssue.title := "Fix bug";
     GitlabIssue.updated_at := Js.sub n (Js.Num (-1700000000000));
     GitlabIssue.weight := Some 3%Z;
     GitlabIssue.comments := [comment "me" 1800000000000] |}.

Definition world130 : forall R, @call externals R -> nat -> (rejection + R) * nat :=
  respond (Some cfg) recent_issue (Rx.from []).

End Sample.

(** ** Proof steps *)

(** Unfolds the monad notation and runs a program up to its next
    request. *)
Ltac prog_simpl :=
  unfold mbind, prog_bind, mret, prog_ret, await, deref in *;
  cbn [bind exec] in *.


(** ** More sample collaborators *)

Module Failing.

(** Nothing answers. *)
Definition offline (R : Type) (c : @call Sample.externals R) (w : nat)
: (rejection + R) * nat :=
(inl "offline", S w).

(** The configuration is there, the API is not. *)
Definition api_down (R : Type) (c : @call Sample.externals R) (w : nat)
: (rejection + R) * nat :=
match c in call R return (rejection + R) * nat with
| _getCfgOnce _ => (inr (Some Sample.cfg), S w)
| _ => (inl "502 Bad Gateway", S w)
end.

(** The API fails from its second request on. *)
Definition second_batch_fails (R : Type) (c : @call Sample.externals R) (w : nat)
: (rejection + R) * nat :=
if (w <? 2)%nat
then Sample.respond (Some Sample.cfg) Sample.recent_issue (Rx.from []) R c w
else (inl "502 Bad Gateway", S w).

(** [getByIds] answers with one issue only, whatever it is asked. *)
Definition one_issue_per_batch (R : Type) (c : @call Sample.externals R) (w : nat)
: (rejection + R) * nat :=
match c in call R return (rejection + R) * nat with
| getByIds ids _ => (inr [Sample.recent_issue (Js.Num 1)], S w)
| c => Sample.respond (Some Sample.cfg) Sample.recent_issue (Rx.from []) _ c w
end.

(** A provider that is enabled when it has a project. *)
Definition isGitlabEnabled (cfg : option GitlabCfg.t) : bool :=
match cfg with
| Some cfg => match GitlabCfg.project cfg with Some _ => true | None => false end
| None => false
end.

(** A self-hosted instance whose project was never filled in. *)
Definition no_project_cfg : GitlabCfg.t :=
{| GitlabCfg.gitlabBaseUrl := Some "https://git.example.com";
   GitlabCfg.project := None;
   GitlabCfg.filterUsername := None;
   GitlabCfg.isSearchIssuesFromGitlab := true;
   GitlabCfg.isAutoPoll := true;
   GitlabCfg.isAutoAddToBacklog := false |}.

End Failing.

(** * Properties *)

(** ** Comments by others *)

Lemma commentsByOthers_unfiltered (cfg : GitlabCfg.t) (issue : GitlabIssue.t) :
  match GitlabCfg.filterUsername cfg with
  | Some u => (String.length u <= 1)%nat
  | None => True
  end ->
  commentsByOthers cfg issue = GitlabIssue.comments issue.
Proof.
  unfold commentsByOthers. destruct (GitlabCfg.filterUsername cfg) as [u|]; [|done].
  intros Hu. destruct (Nat.ltb_spec 1 (String.length u)); [lia|done].
Qed.

Lemma by_other_self (c : GitlabComment.t) :
  by_other (GitlabComment.username (GitlabComment.author c)) c = false.
Proof. unfold by_other. by rewrite String.eqb_refl. Qed.

Lemma by_other_true (u : string) (c : GitlabComment.t) :
  by_other u c = true <-> GitlabComment.username (GitlabComment.author c) <> u.
Proof.
  unfold by_other. rewrite negb_true_iff. apply String.eqb_neq.
Qed.

Lemma commentsByOthers_elem (cfg : GitlabCfg.t) (issue : GitlabIssue.t)
    (c : GitlabComment.t) :
  c ∈ commentsByOthers cfg issue ->
  c ∈ GitlabIssue.comments issue.
Proof.
  unfold commentsByOthers.
  destruct (GitlabCfg.filterUsername cfg) as [u|]; [|done].
  destruct (1 <? String.length u)%nat; [|done].
  rewrite !list_elem_of_In, filter_In. tauto.
Qed.

(** Comments of anybody but [filterUsername] always count. *)
Lemma commentsByOthers_keeps_others (cfg : GitlabCfg.t) (issue : GitlabIssue.t)
    (c : GitlabComment.t) :
  c ∈ GitlabIssue.comments issue ->
  GitlabCfg.filterUsername cfg
    <> Some (GitlabComment.username (GitlabComment.author c)) ->
  c ∈ commentsByOthers cfg issue.
Proof.
  unfold commentsByOthers. intros Hc Hne.
  destruct (GitlabCfg.filterUsername cfg) as [u|]; [|done].
  destruct (1 <? String.length u)%nat; [|done].
  rewrite list_elem_of_In, filter_In, <- list_elem_of_In. split; [done|].
  apply by_other_true. congruence.
Qed.

(** C5: a comment written by [filterUsername] is left out of the
    comments by others exactly when [filterUsername] is longer than one
    character; with a filter of at most one character (the empty one
    included) the comments by others are all the comments. *)
Theorem commentsByOthers_excludes_iff_long_filter
    (cfg : GitlabCfg.t) (issue : GitlabIssue.t) (u : string) :
  GitlabCfg.filterUsername cfg = Some u ->
  (forall c : GitlabComment.t,
      c ∈ GitlabIssue.comments issue ->
      GitlabComment.username (GitlabComment.author c) = u ->
      (c ∉ commentsByOthers cfg issue <-> (1 < String.length u)%nat))
  /\ ((String.length u <= 1)%nat ->
      commentsByOthers cfg issue = GitlabIssue.comments issue).
Proof.
  intros Hu. split.
  - intros c Hc <-. unfold commentsByOthers. rewrite Hu.
    destruct (Nat.ltb_spec 1
                (String.length (GitlabComment.username (GitlabComment.author c))))
      as [Hlong|Hshort].
    + split; [done|]. intros _.
      rewrite list_elem_of_In, filter_In, by_other_self. intros [_ ?]; done.
    + split; [done|lia].
  - intros Hshort. apply commentsByOthers_unfiltered. by rewrite Hu.
Qed.

Lemma commentsByOthers_excludes_iff_long_filter_witness :
  (Sample.comment "me" 5
     ∉ commentsByOthers Sample.cfg
         (Sample.issue 5 9 [Sample.comment "me" 5; Sample.comment "bob" 7]))
  /\ (Sample.comment "bob" 7
      ∈ commentsByOthers Sample.cfg
          (Sample.issue 5 9 [Sample.comment "me" 5; Sample.comment "bob" 7])).
Proof.
  destruct (commentsByOthers_excludes_iff_long_filter Sample.cfg
              (Sample.issue 5 9 [Sample.comment "me" 5; Sample.comment "bob" 7])
              "me" eq_refl) as [Hexcluded _].
  split.
  - apply (Hexcluded (Sample.comment "me" 5)).
    + apply list_elem_of_here.
    + reflexivity.
    + cbn. lia.
  - apply list_elem_of_here.
Defined.

(** ** Running programs *)

Section ExecFacts.
Context `{Externals} {W : Type}
        (respond : forall R, call R -> W -> (rejection + R) * W).

Lemma exec_bind {A B} (m : prog A) (f : A -> prog B) (w : W) :
  exec respond (bind m f) w =
  let '(tr, o, w1) := exec respond m w in
  match o with
  | Returned a =>
      let '(tr2, o2, w2) := exec respond (f a) w1 in ((tr ++ tr2)%list, o2, w2)
  | Threw e => (tr, Threw e, w1)
  | Rejected e => (tr, Rejected e, w1)
  | OutOfFuel => (tr, OutOfFuel, w1)
  end.
Proof.
  revert w. induction m as [a|e| |R c k IH]; intros w; cbn [bind exec].
  - by destruct (exec respond (f a) w) as [[tr2 o2] w2].
  - done.
  - done.
  - destruct (respond R c w) as [[e|r] w1]; [done|].
    rewrite IH. destruct (exec respond (k r) w1) as [[tr o] w2].
    destruct o as [a| | |]; try done.
    by destruct (exec respond (f a) w2) as [[tr2 o2] w3].
Qed.

Lemma exec_await {R} (c : call R) (w : W) :
  exec respond (await c) w =
  let '(answer, w1) := respond R c w in
  ([Ev c answer],
   match answer with inl e => Rejected e | inr r => Returned r end, w1).
Proof.
  unfold await. cbn [exec]. by destruct (respond R c w) as [[e|r] w1].
Qed.
End ExecFacts.

(** ** The stable sort *)

Lemma Sorted_weaken {A : Type} (R R' : A -> A -> Prop) (l : list A) :
  (forall x y, R x y -> R' x y) -> Sorted R l -> Sorted R' l.
Proof.
  intros HR. induction 1 as [|x l Hs IH Hhd]; constructor; [done|].
  destruct Hhd; constructor; auto.
Qed.

Section SortFacts.
Context {A : Type} (after : A -> A -> bool).

Lemma insert_Permutation (x : A) (l : list A) :
  Js.insert after x l ≡ₚ x :: l.
Proof.
  induction l as [|y l IH]; cbn [Js.insert]; [done|].
  destruct (after x y); [|done].
  rewrite IH. apply Permutation_swap.
Qed.

Lemma sort_by_Permutation (l : list A) : Js.sort_by after l ≡ₚ l.
Proof.
  induction l as [|x l IH]; [done|].
  unfold Js.sort_by in *. cbn [foldr]. by rewrite insert_Permutation, IH.
Qed.

Lemma sort_by_length (l : list A) : length (Js.sort_by after l) = length l.
Proof. apply Permutation_length, sort_by_Permutation. Qed.

Hypothesis after_asym : forall x y, after x y = true -> after y x = false.

Lemma insert_Sorted (x : A) (l : list A) :
  Sorted (Js.not_after after) l -> Sorted (Js.not_after after) (Js.insert after x l).
Proof.
  induction l as [|y l IH]; intros Hl; cbn [Js.insert].
  - by repeat constructor.
  - destruct (after x y) eqn:Hxy.
    + apply Sorted_inv in Hl as [Hl Hhd]. constructor; [by apply IH|].
      destruct l as [|z l]; cbn [Js.insert].
      * constructor. by apply after_asym.
      * destruct (after x z); constructor.
        -- by inversion Hhd.
        -- by apply after_asym.
    + constructor; [done|]. by constructor.
Qed.

Lemma sort_by_Sorted (l : list A) : Sorted (Js.not_after after) (Js.sort_by after l).
Proof.
  induction l as [|x l IH]; [constructor|].
  unfold Js.sort_by in *. cbn [foldr]. by apply insert_Sorted.
Qed.

(** An array already in order is left as it is. *)
Lemma sort_by_sorted_id (l : list A) :
  Sorted (Js.not_after after) l -> Js.sort_by after l = l.
Proof.
  induction l as [|x l IH]; intros Hl; [done|].
  apply Sorted_inv in Hl as [Hl Hhd].
  unfold Js.sort_by in *. cbn [foldr]. rewrite IH by done.
  destruct Hhd as [|y l Hxy]; [done|]. cbn [Js.insert].
  unfold Js.not_after in Hxy. by rewrite Hxy.
Qed.
End SortFacts.

Lemma default_after_asym (x y : Js.num) :
  Js.default_after x y = true -> Js.default_after y x = false.
Proof.
  unfold Js.default_after, String.ltb.
  rewrite (String.compare_antisym (Js.to_string y) (Js.to_string x)).
  by destruct (String.compare (Js.to_string x) (Js.to_string y)).
Qed.

Lemma comparefn_after_byIssueIdDesc_asym `{Externals} (a b : Task.t) :
  Js.comparefn_after byIssueIdDesc a b = true ->
  Js.comparefn_after byIssueIdDesc b a = false.
Proof.
  unfold Js.comparefn_after, byIssueIdDesc.
  destruct (issueNumber a), (issueNumber b); cbn; try done.
  intros ?%Z.ltb_lt. apply Z.ltb_ge. lia.
Qed.

(** The comparator puts [a] behind [b] exactly when [b] has the greater
    issue number. *)
Lemma comparefn_after_byIssueIdDesc `{Externals} (a b : Task.t) :
  Js.comparefn_after byIssueIdDesc a b = Js.gt (issueNumber b) (issueNumber a).
Proof.
  unfold Js.comparefn_after, byIssueIdDesc.
  destruct (issueNumber a) as [x|], (issueNumber b) as [y|]; cbn; try done.
  destruct (Z.ltb_spec 0 (y - x)), (Z.ltb_spec x y); done || lia.
Qed.

Lemma sortTasks_Sorted `{Externals} (tasks : list Task.t) :
  Sorted (fun a b => Js.gt (issueNumber b) (issueNumber a) = false) (sortTasks tasks).
Proof.
  apply (Sorted_weaken (Js.not_after (Js.comparefn_after byIssueIdDesc))).
  - intros a b. unfold Js.not_after. by rewrite comparefn_after_byIssueIdDesc.
  - apply sort_by_Sorted. intros a b. apply comparefn_after_byIssueIdDesc_asym.
Qed.

Lemma sortTasks_sorted_id `{Externals} (tasks : list Task.t) :
  Sorted (fun a b => Js.gt (issueNumber b) (issueNumber a) = false) tasks ->
  sortTasks tasks = tasks.
Proof.
  intros Hsorted. apply sort_by_sorted_id.
  apply (Sorted_weaken (fun a b => Js.gt (issueNumber b) (issueNumber a) = false));
    [|done].
  intros a b. unfold Js.not_after. by rewrite comparefn_after_byIssueIdDesc.
Qed.

Lemma sortTasks_Permutation `{Externals} (tasks : list Task.t) :
  sortTasks tasks ≡ₚ tasks.
Proof. apply sort_by_Permutation. Qed.

(** ** Decimal numerals of the same length

    [sort()] orders the timestamps by their numerals.  On numerals of
    one length that is the order of the numbers, which is why the
    detection is right for dates from 2001-09-09 (13 digits) on. *)

Section Numerals.
Local Open Scope N_scope.

Lemma same_width_pos (x y : N) : Spec.same_width x y -> 0 < x /\ 0 < y.
Proof.
  induction 1 as [x y Hx Hy|x y _ [IHx IHy]]; [lia|].
  split.
  - destruct (N.eq_dec x 0) as [->|]; [|lia]. by cbn in IHx.
  - destruct (N.eq_dec y 0) as [->|]; [|lia]. by cbn in IHy.
Qed.

Lemma div_10_bounds (p x : N) :
  10 * p <= x < 10 * (10 * p) -> p <= x `div` 10 < 10 * p.
Proof.
  intros Hx. pose proof (N.div_mod' x 10).
  pose proof (N.mod_upper_bound x 10 ltac:(done)).
  generalize dependent (x `div` 10). generalize dependent (x `mod` 10).
  intros. lia.
Qed.

Lemma same_width_bounds (k : nat) (x y : N) :
  10 ^ N.of_nat k <= x < 10 ^ N.of_nat (S k) ->
  10 ^ N.of_nat k <= y < 10 ^ N.of_nat (S k) ->
  Spec.same_width x y.
Proof.
  revert x y. induction k as [|k IH]; intros x y Hx Hy.
  - apply Spec.same_width_digit; cbn in *; lia.
  - rewrite !Nat2N.inj_succ, !N.pow_succ_r' in Hx, Hy.
    apply Spec.same_width_more, IH.
    all: rewrite Nat2N.inj_succ, N.pow_succ_r'; by apply div_10_bounds.
Qed.

Lemma pretty_N_char_code (d : N) :
  d < 10 -> N_of_ascii (pretty_N_char d) = 48 + d.
Proof.
  intros Hd.
  assert (d = 0 \/ d = 1 \/ d = 2 \/ d = 3 \/ d = 4
          \/ d = 5 \/ d = 6 \/ d = 7 \/ d = 8 \/ d = 9) as Hcases by lia.
  repeat (destruct Hcases as [->|Hcases]; [reflexivity|]). by subst.
Qed.

Lemma pretty_N_char_compare (d e : N) :
  d < 10 -> e < 10 ->
  Ascii.compare (pretty_N_char d) (pretty_N_char e) = (d ?= e).
Proof.
  intros Hd He. unfold Ascii.compare.
  rewrite !pretty_N_char_code by done.
  destruct (N.compare_spec (48 + d) (48 + e)), (N.compare_spec d e);
    done || lia.
Qed.

Lemma compare_div_mod (x y : N) (c : comparison) :
  match x `div` 10 ?= y `div` 10 with
  | Eq => match x `mod` 10 ?= y `mod` 10 with Eq => c | ne => ne end
  | ne => ne
  end
  = match x ?= y with Eq => c | ne => ne end.
Proof.
  pose proof (N.div_mod' x 10). pose proof (N.div_mod' y 10).
  pose proof (N.mod_upper_bound x 10 ltac:(done)).
  pose proof (N.mod_upper_bound y 10 ltac:(done)).
  remember (x `div` 10) as qx eqn:Hqx. remember (x `mod` 10) as rx eqn:Hrx.
  remember (y `div` 10) as qy eqn:Hqy. remember (y `mod` 10) as ry eqn:Hry.
  clear Hqx Hrx Hqy Hry.
  destruct (N.compare_spec qx qy), (N.compare_spec rx ry), (N.compare_spec x y);
    try done; lia.
Qed.

(** The numerals of two numbers of the same width compare as the
    numbers do. *)
Lemma pretty_N_go_compare (x y : N) :
  Spec.same_width x y ->
  forall s t : string,
    String.compare (pretty_N_go x s) (pretty_N_go y t)
    = match x ?= y with Eq => String.compare s t | ne => ne end.
Proof.
  induction 1 as [x y Hx Hy|x y Hw IH]; intros s t.
  - rewrite (pretty_N_go_step x), (pretty_N_go_step y) by lia.
    rewrite !N.div_small, !pretty_N_go_0, !N.mod_small by lia.
    cbn [String.compare]. rewrite pretty_N_char_compare by lia. done.
  - destruct (same_width_pos _ _ Hw) as [Hx Hy].
    assert (0 < x /\ 0 < y) as [Hx' Hy'].
    { split.
      - destruct (N.eq_dec x 0) as [->|]; [by cbn in Hx|lia].
      - destruct (N.eq_dec y 0) as [->|]; [by cbn in Hy|lia]. }
    rewrite (pretty_N_go_step x), (pretty_N_go_step y) by done.
    rewrite IH. cbn [String.compare].
    rewrite pretty_N_char_compare by (apply N.mod_upper_bound; lia).
    apply compare_div_mod.
Qed.
End Numerals.

Lemma default_after_digits (k : nat) (x y : Z) :
  (10 ^ Z.of_nat k <= x < 10 ^ Z.of_nat (S k))%Z ->
  (10 ^ Z.of_nat k <= y < 10 ^ Z.of_nat (S k))%Z ->
  Js.default_after (Js.Num x) (Js.Num y) = (y <? x)%Z.
Proof.
  intros Hx Hy.
  assert (0 < 10 ^ Z.of_nat k)%Z by (apply Z.pow_pos_nonneg; lia).
  assert (forall z, (10 ^ Z.of_nat k <= z < 10 ^ Z.of_nat (S k))%Z ->
                    (10 ^ N.of_nat k <= Z.to_N z < 10 ^ N.of_nat (S k))%N) as Hto_N.
  { intros z Hz. rewrite <- (Z2N.id z) in Hz by lia.
    rewrite <- !nat_N_Z in Hz.
    change 10%Z with (Z.of_N 10) in Hz. rewrite <- !N2Z.inj_pow in Hz. lia. }
  pose proof (pretty_N_go_compare _ _
                (same_width_bounds k _ _ (Hto_N y Hy) (Hto_N x Hx)) "" "") as Hcmp.
  unfold Js.default_after, Js.to_string, String.ltb.
  destruct x as [|p|p], y as [|q|q]; try lia.
  unfold pretty, pretty_Z, pretty, pretty_positive, pretty, pretty_N.
  rewrite !decide_False by done.
  change (Z.to_N (Z.pos q)) with (N.pos q) in Hcmp.
  change (Z.to_N (Z.pos p)) with (N.pos p) in Hcmp.
  rewrite Hcmp. cbn [String.compare].
  change (N.pos q ?= N.pos p)%N with (Z.pos q ?= Z.pos p)%Z.
  unfold Z.ltb. by destruct (Z.pos q ?= Z.pos p)%Z.
Qed.

(** ** The last element of the sorted timestamps *)

Section SortExt.
Context {A : Type}.

Lemma insert_ext (after after' : A -> A -> bool) (x : A) (l : list A) :
  (forall y, y ∈ l -> after x y = after' x y) ->
  Js.insert after x l = Js.insert after' x l.
Proof.
  induction l as [|y l IH]; intros Hagree; cbn [Js.insert]; [done|].
  rewrite <- (Hagree y) by apply list_elem_of_here.
  destruct (after x y); [|done]. f_equal. apply IH.
  intros z Hz. apply Hagree. by apply list_elem_of_further.
Qed.

Lemma sort_by_ext (after after' : A -> A -> bool) (l : list A) :
  (forall x y, x ∈ l -> y ∈ l -> after x y = after' x y) ->
  Js.sort_by after l = Js.sort_by after' l.
Proof.
  induction l as [|x l IH]; intros Hagree; [done|].
  unfold Js.sort_by in *. cbn [foldr]. rewrite IH.
  - apply insert_ext. intros y Hy. apply Hagree; [apply list_elem_of_here|].
    apply list_elem_of_further.
    by rewrite <- (sort_by_Permutation after' l).
  - intros y z Hy Hz. apply Hagree; by apply list_elem_of_further.
Qed.

Lemma sort_by_map {B : Type} (f : A -> B) (after : A -> A -> bool)
    (after' : B -> B -> bool) (l : list A) :
  (forall x y, after' (f x) (f y) = after x y) ->
  Js.sort_by after' (map f l) = map f (Js.sort_by after l).
Proof.
  intros Hf. induction l as [|x l IH]; [done|].
  unfold Js.sort_by in *. cbn [map foldr]. rewrite IH.
  generalize (foldr (Js.insert after) [] l) as sorted.
  induction sorted as [|y sorted IHs]; cbn [map Js.insert]; [done|].
  rewrite Hf. destruct (after x y); cbn [map]; [|done]. by rewrite IHs.
Qed.
End SortExt.

Section LastIsMax.
Local Open Scope Z_scope.

Lemma sorted_head_le_last (y d : Z) (l : list Z) :
  Sorted (Js.not_after Spec.numerically_after) (y :: l) ->
  y <= List.last (y :: l) d.
Proof.
  revert y. induction l as [|z l IH]; intros y Hsorted; [cbn; lia|].
  apply Sorted_inv in Hsorted as [Hsorted Hhd].
  apply HdRel_inv in Hhd. unfold Js.not_after, Spec.numerically_after in Hhd.
  apply Z.ltb_ge in Hhd. specialize (IH z Hsorted).
  change (List.last (y :: z :: l) d) with (List.last (z :: l) d). lia.
Qed.

Lemma insert_not_nil (x : Z) (l : list Z) :
  Js.insert Spec.numerically_after x l <> [].
Proof. destruct l as [|y l]; cbn; [done|]. by destruct (Spec.numerically_after x y). Qed.

Lemma last_insert (x d : Z) (l : list Z) :
  l <> [] ->
  Sorted (Js.not_after Spec.numerically_after) l ->
  List.last (Js.insert Spec.numerically_after x l) d = Z.max x (List.last l d).
Proof.
  induction l as [|y l IH]; intros Hne Hsorted; [done|].
  cbn [Js.insert]. unfold Spec.numerically_after at 1.
  destruct (Z.ltb_spec y x) as [Hlt|Hge].
  - destruct l as [|z l].
    + cbn. lia.
    + apply Sorted_inv in Hsorted as [Hsorted _].
      specialize (IH ltac:(done) Hsorted).
      pose proof (insert_not_nil x (z :: l)) as Hins.
      destruct (Js.insert Spec.numerically_after x (z :: l)) as [|i ins] eqn:Heq;
        [done|].
      change (List.last (y :: i :: ins) d) with (List.last (i :: ins) d).
      rewrite IH. done.
  - pose proof (sorted_head_le_last y d l Hsorted).
    change (List.last (x :: y :: l) d) with (List.last (y :: l) d). lia.
Qed.

Lemma last_sort_by_is_max (zs : list Z) (u d : Z) :
  List.last (Js.sort_by Spec.numerically_after (zs ++ [u])) d = foldr Z.max u zs.
Proof.
  unfold Js.sort_by. rewrite foldr_app. cbn [foldr Js.insert].
  assert (foldr (Js.insert Spec.numerically_after) [u] zs <> []
          /\ Sorted (Js.not_after Spec.numerically_after)
               (foldr (Js.insert Spec.numerically_after) [u] zs)
          /\ List.last (foldr (Js.insert Spec.numerically_after) [u] zs) d
             = foldr Z.max u zs) as (_ & _ & Hlast); [|done].
  induction zs as [|z zs (Hne & Hsorted & Hlast)]; cbn [foldr].
  - repeat split; [done|by repeat constructor].
  - split; [apply insert_not_nil|]. split.
    + apply insert_Sorted; [|done].
      unfold Spec.numerically_after. intros a b ?%Z.ltb_lt. apply Z.ltb_ge. lia.
    + by rewrite last_insert, Hlast.
Qed.
End LastIsMax.

Lemma digits_list (k : nat) (l : list Js.num) :
  Forall (Spec.digits k) l ->
  exists zs : list Z,
    l = map Js.Num zs
    /\ Forall (fun z => (10 ^ Z.of_nat k <= z < 10 ^ Z.of_nat (S k))%Z) zs.
Proof.
  induction 1 as [|t l (z & -> & Hz) _ (zs & -> & Hzs)].
  - by exists [].
  - exists (z :: zs). split; [done|]. by constructor.
Qed.

Lemma spec_max_nums (u : Z) (zs : list Z) :
  foldr Spec.max (Js.Num u) (map Js.Num zs) = Js.Num (foldr Z.max u zs).
Proof. induction zs as [|z zs IH]; [done|]. cbn [map foldr]. by rewrite IH. Qed.

Lemma last_elem_nums (d : Z) (zs : list Z) :
  zs <> [] -> Js.last_elem (map Js.Num zs) = Js.Num (List.last zs d).
Proof.
  unfold Js.last_elem. induction zs as [|z zs IH]; intros Hne; [done|].
  destruct zs as [|z' zs]; [done|].
  change (List.last (map Js.Num (z :: z' :: zs)) Js.NaN)
    with (List.last (map Js.Num (z' :: zs)) Js.NaN).
  change (List.last (z :: z' :: zs) d) with (List.last (z' :: zs) d).
  by apply IH.
Qed.

Lemma ascending_nums (zs : list Z) :
  Sorted (Js.not_after Spec.numerically_after) zs -> Spec.ascending (map Js.Num zs).
Proof.
  unfold Spec.ascending.
  induction 1 as [|z zs Hsorted IH Hhd]; cbn [map]; constructor; [done|].
  destruct Hhd as [|z' zs Hzz']; cbn [map]; constructor. done.
Qed.

(** Where the code and the specification agree: when all candidate
    timestamps have the same number of digits (13 for every date from
    2001-09-09 to 2286-11-20), the sorted candidates are ascending,
    their last element is the maximum, and a change is reported exactly
    when the maximum is greater than the task's time. *)
Theorem wasUpdated_of_same_width_timestamps
    (k : nat) (cfg : GitlabCfg.t) (task : Task.t) (issue : GitlabIssue.t) :
  Forall (Spec.digits k) (candidates cfg issue) ->
  Spec.ascending (updates cfg issue)
  /\ lastRemoteUpdate cfg issue = Spec.lastRemoteUpdate cfg issue
  /\ wasUpdated cfg task issue = Spec.change_detected cfg task issue.
Proof.
  intros Hdigits.
  cut (Spec.ascending (updates cfg issue)
       /\ lastRemoteUpdate cfg issue = Spec.lastRemoteUpdate cfg issue).
  { intros [Hasc Hlast]. unfold wasUpdated, Spec.change_detected.
    by rewrite Hlast. }
  unfold lastRemoteUpdate, Spec.lastRemoteUpdate, updates, candidates in *.
  apply Forall_app in Hdigits as [Hcomments Hissue].
  apply digits_list in Hcomments as (zs & Hzs & Hbounds).
  apply Forall_inv in Hissue as (u & Hu & Hubound).
  rewrite Hzs, Hu. change [Js.Num u] with (map Js.Num [u]). rewrite <- map_app.
  assert (Js.sort (map Js.Num (zs ++ [u]))
          = map Js.Num (Js.sort_by Spec.numerically_after (zs ++ [u]))) as ->.
  { unfold Js.sort.
    rewrite (sort_by_ext Js.default_after Js.gt).
    - by apply sort_by_map.
    - assert (Forall (fun z => (10 ^ Z.of_nat k <= z < 10 ^ Z.of_nat (S k))%Z)
                (zs ++ [u])) as Hall.
      { apply Forall_app. split; [done|]. by constructor. }
      rewrite Forall_forall in Hall.
      intros x y (a & -> & Ha)%list_elem_of_fmap (b & -> & Hb)%list_elem_of_fmap.
      by apply (default_after_digits k); apply Hall. }
  split.
  - apply ascending_nums, sort_by_Sorted.
    unfold Spec.numerically_after. intros a b ?%Z.ltb_lt. apply Z.ltb_ge. lia.
  - rewrite (last_elem_nums 0%Z).
    + by rewrite last_sort_by_is_max, spec_max_nums.
    + intros Hnil%(f_equal length). rewrite sort_by_length, length_app in Hnil.
      cbn in Hnil. lia.
Qed.

Lemma wasUpdated_of_same_width_timestamps_witness :
  Spec.ascending
    (updates Sample.cfg
       (Sample.issue 5 1700000000000 [Sample.comment "bob" 1700000005000]))
  /\ lastRemoteUpdate Sample.cfg
       (Sample.issue 5 1700000000000 [Sample.comment "bob" 1700000005000])
     = Spec.lastRemoteUpdate Sample.cfg
         (Sample.issue 5 1700000000000 [Sample.comment "bob" 1700000005000])
  /\ wasUpdated Sample.cfg (Sample.task "5" 1700000000000)
       (Sample.issue 5 1700000000000 [Sample.comment "bob" 1700000005000])
     = Spec.change_detected Sample.cfg (Sample.task "5" 1700000000000)
         (Sample.issue 5 1700000000000 [Sample.comment "bob" 1700000005000]).
Proof.
  apply (wasUpdated_of_same_width_timestamps 12).
  repeat constructor; eexists; (split; [reflexivity|]); cbn; lia.
Defined.

(** ** Change detection *)

(** C1 (the code departs from it): the candidate timestamps are sorted
    with [sort()], which orders numbers by their decimal strings, so
    the last element is the greatest string and not the greatest
    number.  For an issue updated at 1000000000000 with a comment by
    somebody else at 999999999999 and a task synchronised at
    999999999999, the sorted candidates are not ascending, their last
    element is the comment's time, and neither method reports the change
    that the maximum, 1000000000000, makes. *)
Theorem lastRemoteUpdate_is_last_by_string :
  let issue := Sample.old_issue (Js.Num 5) in
  let world := Sample.respond (Some Sample.cfg) Sample.old_issue (Rx.from []) in
  candidates Sample.cfg issue = [Js.Num 999999999999; Js.Num 1000000000000]
  /\ updates Sample.cfg issue = [Js.Num 1000000000000; Js.Num 999999999999]
  /\ ~ Spec.ascending (updates Sample.cfg issue)
  /\ lastRemoteUpdate Sample.cfg issue = Js.Num 999999999999
  /\ Spec.lastRemoteUpdate Sample.cfg issue = Js.Num 1000000000000
  /\ wasUpdated Sample.cfg Sample.old_task issue = false
  /\ Spec.change_detected Sample.cfg Sample.old_task issue = true
  /\ result world (getFreshDataForIssueTask Sample.old_task) 0 = Returned None
  /\ result world (getFreshDataForIssueTasks [Sample.old_task]).2 0 = Returned [].
Proof.
  cbv zeta. repeat split; try reflexivity.
  intros Hsorted. apply Sorted_inv in Hsorted as [_ Hhd].
  inversion Hhd as [|? ? Hgt]. discriminate Hgt.
Qed.

(** ** Precondition errors *)

Section Preconditions.
Context `{Externals} {W : Type}
        (respond : forall R, call R -> W -> (rejection + R) * W).

Lemma refresh_sorted_no_projectId (first : Task.t) (tasks : list Task.t) (w : W) :
  Js.truthy (Task.projectId first) = None ->
  exec respond (refresh_sorted (first :: tasks)) w
  = ([], Threw (Error "No projectId"), w).
Proof.
  intros Hp. unfold refresh_sorted. change ((first :: tasks) !! 0%nat) with (Some first).
  prog_simpl. by rewrite Hp.
Qed.

(** C4: without a [projectId] (absent or empty) both methods end with
    [Error('No projectId')] and have asked nothing of the
    configuration or the API; a single task that has a project but no
    [issueId] ends with [Error('No issueId')], again before any
    request. *)
Theorem missing_ids_fail_before_any_request (w : W) :
  (forall task : Task.t,
      Js.truthy (Task.projectId task) = None ->
      exec respond (getFreshDataForIssueTask task) w
      = ([], Threw (Error "No projectId"), w))
  /\ (forall task : Task.t,
      Js.truthy (Task.projectId task) <> None ->
      Js.truthy (Task.issueId task) = None ->
      exec respond (getFreshDataForIssueTask task) w
      = ([], Threw (Error "No issueId"), w))
  /\ (forall tasks : list Task.t,
      tasks <> [] ->
      Forall (fun task => Js.truthy (Task.projectId task) = None) tasks ->
      exec respond (getFreshDataForIssueTasks tasks).2 w
      = ([], Threw (Error "No projectId"), w)).
Proof.
  split; [|split].
  - intros task Hp. unfold getFreshDataForIssueTask. by rewrite Hp.
  - intros task Hp Hi. unfold getFreshDataForIssueTask.
    destruct (Js.truthy (Task.projectId task)); [|done]. by rewrite Hi.
  - intros tasks Hne Hall. unfold getFreshDataForIssueTasks. cbn [snd].
    pose proof (sortTasks_Permutation tasks) as Hperm.
    destruct (sortTasks tasks) as [|first sorted].
    + apply Permutation_nil in Hperm. done.
    + apply refresh_sorted_no_projectId.
      rewrite Forall_forall in Hall. apply Hall.
      rewrite <- Hperm. apply list_elem_of_here.
Qed.

(** C10: on the empty array the read of [tasks[0].projectId] is a
    [TypeError]; the guarded [Error('No projectId')] is not what the
    method ends with, and nothing has been requested. *)
Theorem empty_task_list_is_a_TypeError (w : W) :
  (getFreshDataForIssueTasks []).1 = []
  /\ exec respond (getFreshDataForIssueTasks []).2 w = ([], Threw TypeError, w)
  /\ result respond (getFreshDataForIssueTasks []).2 w
     <> Threw (Error "No projectId").
Proof. repeat split. done. Qed.

(** C9: the answer of [getNewIssuesToAddToBacklog] is the same for
    any two lists of existing ids: the configuration is read and page
    1 of the project's issues is requested, whatever the list holds. *)
Theorem getNewIssuesToAddToBacklog_ignores_existing_ids
    (projectId : string) (ids1 ids2 : list Js.num + list string) (w : W) :
  exec respond (getNewIssuesToAddToBacklog projectId ids1) w
  = exec respond (getNewIssuesToAddToBacklog projectId ids2) w
  /\ exec respond (getNewIssuesToAddToBacklog projectId ids1) w
     = (let '(cfg, w1) := respond _ (_getCfgOnce projectId) w in
        match cfg with
        | inl e => ([Ev (_getCfgOnce projectId) cfg], Rejected e, w1)
        | inr c =>
            let '(page, w2) := respond _ (getProjectIssues 1 c) w1 in
            ([Ev (_getCfgOnce projectId) cfg; Ev (getProjectIssues 1 c) page],
             match page with inl e => Rejected e | inr issues => Returned issues end,
             w2)
        end).
Proof.
  split; [done|].
  unfold getNewIssuesToAddToBacklog. prog_simpl.
  destruct (respond _ (_getCfgOnce projectId) w) as [[e|c] w1]; [done|].
  by destruct (respond _ (getProjectIssues 1 c) w1) as [[e|issues] w2].
Qed.
End Preconditions.

Lemma missing_ids_fail_before_any_request_witness :
  let world := Sample.respond (Some Sample.cfg) Sample.old_issue (Rx.from []) in
  let no_project := Task.mk None (Some "5") None None None "" in
  let no_issue := Task.mk (Some "P1") (Some "") None None None "" in
  exec world (getFreshDataForIssueTask no_project) 0
  = ([], Threw (Error "No projectId"), 0)
  /\ exec world (getFreshDataForIssueTask no_issue) 0
     = ([], Threw (Error "No issueId"), 0)
  /\ exec world (getFreshDataForIssueTasks [no_project; no_project]).2 0
     = ([], Threw (Error "No projectId"), 0).
Proof.
  cbv zeta.
  destruct (missing_ids_fail_before_any_request
              (Sample.respond (Some Sample.cfg) Sample.old_issue (Rx.from [])) 0)
    as (Hsingle & Hissue & Hmany).
  split; [|split].
  - apply Hsingle. reflexivity.
  - apply Hissue; [discriminate|reflexivity].
  - apply Hmany; [discriminate|]. repeat constructor.
Defined.

(** ** Batches *)

Section BatchFacts.
Context {A : Type}.
Implicit Types l : list A.

Lemma batches_nil (fuel : nat) : Spec.batches fuel (@nil A) = [].
Proof. by destruct fuel. Qed.

Lemma batches_cons (fuel : nat) l :
  l <> [] ->
  Spec.batches (S fuel) l = take 59 l :: Spec.batches fuel (drop 59 l).
Proof. by destruct l. Qed.

Lemma batches_sizes (fuel : nat) l :
  map length (Spec.batches fuel l) = Spec.batch_sizes fuel (length l).
Proof.
  revert l. induction fuel as [|fuel IH]; intros l; [done|].
  destruct l as [|x l]; [done|].
  rewrite batches_cons by done. cbn [map].
  rewrite IH, length_take, length_drop. done.
Qed.

(** The batches are the list, cut up: nothing is lost or doubled. *)
Lemma batches_concat (fuel : nat) l :
  length l <= fuel -> concat (Spec.batches fuel l) = l.
Proof.
  revert l. induction fuel as [|fuel IH]; intros l Hlen.
  - destruct l; [done|]. cbn in Hlen. lia.
  - destruct l as [|x l]; [done|].
    rewrite batches_cons by done. cbn [concat].
    rewrite IH, take_drop; [done|].
    rewrite length_drop. cbn [length] in *. lia.
Qed.

Lemma batches_bounded (fuel : nat) l :
  Forall (fun batch => 0 < length batch <= 59) (Spec.batches fuel l).
Proof.
  revert l. induction fuel as [|fuel IH]; intros l; [constructor|].
  destruct l as [|x l]; [constructor|].
  rewrite batches_cons by done. constructor; [|apply IH].
  rewrite length_take. cbn [length]. lia.
Qed.

Lemma drop_length_take (n : nat) l : drop (length (take n l)) l = drop n l.
Proof.
  rewrite length_take. destruct (Nat.min_spec n (length l)) as [[? ->]|[? ->]];
    [done|]. by rewrite drop_all, drop_ge.
Qed.
End BatchFacts.

Example batch_sizes_130 : Spec.batch_sizes 130 130 = [59; 59; 12].
Proof. reflexivity. Qed.

Section Refresh.
Context `{Externals} {W : Type}
        (respond : forall R, call R -> W -> (rejection + R) * W).

Lemma collect_ids_eq (tasks : list Task.t) (n i : nat) (ids : list (option string)) :
  collect_ids tasks n i ids
  = (i + length (take n (drop i tasks)),
     (ids ++ map Task.issueId (take n (drop i tasks)))%list).
Proof.
  revert i ids. induction n as [|n IH]; intros i ids; cbn [collect_ids].
  - rewrite take_0. cbn. by rewrite Nat.add_0_r, app_nil_r.
  - destruct (tasks !! i) as [t|] eqn:Hi.
    + rewrite IH, (drop_S _ _ _ Hi). cbn [take map length].
      rewrite <- app_assoc. f_equal. lia.
    + apply lookup_ge_None in Hi. rewrite drop_ge by done.
      rewrite take_nil. cbn. by rewrite Nat.add_0_r, app_nil_r.
Qed.

Lemma fetch_loop_exec (tasks : list Task.t) (cfg : option GitlabCfg.t) (fuel : nat) :
  forall (i : nat) (issues : list GitlabIssue.t) (w : W),
    length (drop i tasks) <= fuel ->
    exists tr o w',
      exec respond (fetch_loop tasks cfg fuel i issues) w = (tr, o, w')
      /\ match o with
         | Returned all =>
             map request_of tr
             = Spec.batch_requests cfg (Spec.batches fuel (drop i tasks))
             /\ all = (issues ++ flat_map fetched tr)%list
         | Rejected _ =>
             exists n, map request_of tr
                       = take n (Spec.batch_requests cfg (Spec.batches fuel (drop i tasks)))
         | Threw _ | OutOfFuel => False
         end.
Proof.
  induction fuel as [|fuel IH]; intros i issues w Hfuel.
  - assert (drop i tasks = []) as Hnil by (apply nil_length_inv; lia).
    apply drop_nil_inv in Hnil as Hi.
    cbn [fetch_loop]. destruct (Nat.ltb_spec i (length tasks)); [lia|].
    exists [], (Returned issues), w. rewrite Hnil.
    split; [done|]. split; [done|]. by rewrite app_nil_r.
  - cbn [fetch_loop]. destruct (Nat.ltb_spec i (length tasks)) as [Hi|Hi].
    + rewrite collect_ids_eq. unfold paramsCount. prog_simpl.
      assert (drop i tasks <> []) as Hne.
      { intros Hnil%drop_nil_inv. lia. }
      rewrite batches_cons by done.
      destruct (respond _ (getByIds ([] ++ map Task.issueId
                                       (take 59 (drop i tasks))) cfg) w)
        as [[e|batch] w1] eqn:Hanswer.
      * eexists _, _, _. split; [done|]. by exists 1.
      * destruct (IH (i + length (take 59 (drop i tasks)))
                    (issues ++ batch)%list w1) as (tr & o & w2 & Hexec & Hspec).
        { rewrite <- drop_drop, drop_length_take, !length_drop.
          rewrite length_drop in Hfuel. lia. }
        rewrite Hexec. eexists _, _, _. split; [done|].
        rewrite <- drop_drop, drop_length_take in Hspec.
        destruct o as [all|e|e|]; try done.
        -- destruct Hspec as [Hreq ->]. cbn [map flat_map fetched].
           rewrite Hreq, <- app_assoc. done.
        -- destruct Hspec as [n Hreq]. exists (S n). cbn [map].
           by rewrite Hreq.
    + exists [], (Returned issues), w. rewrite drop_ge by done.
      split; [done|]. split; [done|]. by rewrite app_nil_r.
Qed.
End Refresh.

(** ** The comparison of tasks with the fetched issues *)

Section CheckLoop.
Context `{Externals}.

Lemma entries_cons (cfg : GitlabCfg.t) (task : Task.t) (issue : GitlabIssue.t)
    (tasks : list Task.t) (issues : list GitlabIssue.t) :
  Spec.entries cfg (task :: tasks) (issue :: issues)
  = (match Spec.entry cfg (task, issue) with
     | Some e => [e]
     | None => []
     end ++ Spec.entries cfg tasks issues)%list.
Proof.
  unfold Spec.entries. cbn [zip_with omap list_omap].
  by destruct (Spec.entry cfg (task, issue)).
Qed.

Lemma check_loop_matches (cfg : GitlabCfg.t) (tasks : list Task.t)
    (issues : list GitlabIssue.t) (n : nat) :
  forall (i : nat) (updatedIssues : list UpdatedIssue.t),
    i + n <= length tasks ->
    i + n <= length issues ->
    check_loop tasks (Some cfg) issues (seq i n) updatedIssues
    = Ret (updatedIssues
             ++ Spec.entries cfg (take n (drop i tasks)) (take n (drop i issues)))%list.
Proof.
  induction n as [|n IH]; intros i acc Htasks Hissues; cbn [seq check_loop].
  - rewrite !take_0. unfold Spec.entries. cbn. by rewrite app_nil_r.
  - destruct (lookup_lt_is_Some_2 tasks i) as [task Htask]; [lia|].
    destruct (lookup_lt_is_Some_2 issues i) as [issue Hissue]; [lia|].
    rewrite (drop_S _ _ _ Htask), (drop_S _ _ _ Hissue). cbn [take].
    rewrite entries_cons. unfold check_one, Spec.entry. rewrite Htask, Hissue.
    prog_simpl. cbn [fst snd].
    destruct (wasUpdated cfg task issue); cbn [bind];
      rewrite IH by lia; by rewrite <- ?app_assoc.
Qed.

Lemma check_loop_TypeError (cfg : option GitlabCfg.t) (tasks : list Task.t)
    (issues : list GitlabIssue.t) (n : nat) :
  forall (i : nat) (updatedIssues : list UpdatedIssue.t),
    0 < n ->
    cfg = None \/ length issues < i + n ->
    check_loop tasks cfg issues (seq i n) updatedIssues = Throw TypeError.
Proof.
  induction n as [|n IH]; intros i acc Hn Hbad; [lia|].
  cbn [seq check_loop]. unfold check_one.
  destruct (issues !! i) as [issue|] eqn:Hissue; prog_simpl; [|done].
  destruct cfg as [cfg|]; prog_simpl; [|done].
  destruct (tasks !! i) as [task|]; prog_simpl; [|done].
  apply lookup_lt_Some in Hissue.
  destruct Hbad as [?|Hshort]; [done|].
  destruct (wasUpdated cfg task issue); cbn [bind];
    apply IH; first [lia | right; lia].
Qed.

Lemma entries_take (cfg : GitlabCfg.t) (tasks : list Task.t)
    (issues : list GitlabIssue.t) :
  Spec.entries cfg tasks (take (length tasks) issues) = Spec.entries cfg tasks issues.
Proof.
  unfold Spec.entries. f_equal.
  revert issues. induction tasks as [|t tasks IH]; intros [|i issues]; cbn; try done.
  by rewrite IH.
Qed.


Lemma check_loop_outcome {W : Type}
    (respond : forall R, call R -> W -> (rejection + R) * W)
    (cfg : option GitlabCfg.t) (tasks : list Task.t)
    (issues : list GitlabIssue.t) (w : W) :
  exec respond (check_loop tasks cfg issues (seq 0 (length tasks)) []) w
  = ([], Spec.check_outcome cfg tasks issues, w).
Proof.
  unfold Spec.check_outcome. destruct tasks as [|task tasks]; [done|].
  destruct cfg as [cfg|].
  - case_decide.
    + rewrite check_loop_matches by (cbn [length] in *; lia).
      by rewrite drop_0, firstn_all, entries_take.
    + by rewrite check_loop_TypeError by (cbn [length] in *; first [lia|right; lia]).
  - by rewrite check_loop_TypeError by (cbn [length]; first [lia|by left]).
Qed.
End CheckLoop.

(** ** [getFreshDataForIssueTasks], end to end *)

Section RefreshExec.
Context `{Externals} {W : Type}
        (respond : forall R, call R -> W -> (rejection + R) * W).

Lemma refresh_sorted_exec (first : Task.t) (rest : list Task.t)
    (projectId : string) (cfg : option GitlabCfg.t) (w w1 : W) :
  Js.truthy (Task.projectId first) = Some projectId ->
  respond _ (_getCfgOnce projectId) w = (inr cfg, w1) ->
  exists tr o w2,
    exec respond (refresh_sorted (first :: rest)) w
    = (Ev (_getCfgOnce projectId) (inr cfg) :: tr, o, w2)
    /\ match o with
       | Rejected _ =>
           exists n,
             map request_of tr
             = take n (Spec.batch_requests cfg
                         (Spec.batches (length (first :: rest)) (first :: rest)))
       | OutOfFuel => False
       | _ =>
           map request_of tr
           = Spec.batch_requests cfg
               (Spec.batches (length (first :: rest)) (first :: rest))
           /\ o = Spec.check_outcome cfg (first :: rest) (flat_map fetched tr)
       end.
Proof.
  intros Hp Hcfg. unfold refresh_sorted.
  change ((first :: rest) !! 0%nat) with (Some first).
  prog_simpl. rewrite Hp. prog_simpl. rewrite Hcfg. rewrite exec_bind.
  destruct (fetch_loop_exec respond (first :: rest) cfg (length (first :: rest))
              0 [] w1) as (tr & o & w2 & Hexec & Hspec).
  { by rewrite drop_0. }
  rewrite Hexec. rewrite drop_0 in Hspec.
  destruct o as [issues|e|e|]; try done.
  - destruct Hspec as [Hreq ->]. rewrite app_nil_l, check_loop_outcome.
    eexists _, _, _. split; [by rewrite app_nil_r|].
    unfold Spec.check_outcome. destruct cfg as [c|]; [case_decide|]; done.
  - by eexists _, _, _.
Qed.

(** The [while] loop always comes to its end: the fuel of the model,
    one unit per task, is never used up. *)
Theorem getFreshDataForIssueTasks_total (tasks : list Task.t) (w : W) :
  result respond (getFreshDataForIssueTasks tasks).2 w <> OutOfFuel.
Proof.
  unfold getFreshDataForIssueTasks, result. cbn [snd].
  destruct (sortTasks tasks) as [|first rest]; [done|].
  destruct (Js.truthy (Task.projectId first)) as [projectId|] eqn:Hp.
  - destruct (respond _ (_getCfgOnce projectId) w) as [[e|cfg] w1] eqn:Hcfg.
    + unfold refresh_sorted. change ((first :: rest) !! 0%nat) with (Some first).
      prog_simpl. rewrite Hp. prog_simpl. by rewrite Hcfg.
    + destruct (refresh_sorted_exec first rest projectId cfg w w1 Hp Hcfg)
        as (tr & o & w2 & -> & Hspec).
      cbn [fst snd]. by destruct o.
  - by rewrite refresh_sorted_no_projectId.
Qed.
End RefreshExec.


Section RefreshClaims.
Context `{Externals} {W : Type}
        (respond : forall R, call R -> W -> (rejection + R) * W).


(** C3: 130 tasks of one project, when no request fails, make the
    configuration request and then exactly three [getByIds] requests,
    of 59, 59 and 12 ids, which together are the ids of the tasks as
    sorted (no task is followed by one with a greater issue number);
    the issues fetched, in the order they came, are compared with the
    sorted tasks position by position. *)
Theorem batches_of_130_tasks (tasks : list Task.t) (projectId : string) (w : W) :
  length tasks = 130 ->
  Forall (fun task => Js.truthy (Task.projectId task) = Some projectId) tasks ->
  (forall e, result respond (getFreshDataForIssueTasks tasks).2 w <> Rejected e) ->
  let sorted := (getFreshDataForIssueTasks tasks).1 in
  let tr := trace respond (getFreshDataForIssueTasks tasks).2 w in
  sorted ≡ₚ tasks
  /\ Sorted (fun a b => Js.gt (issueNumber b) (issueNumber a) = false) sorted
  /\ exists cfg ids1 ids2 ids3,
      map request_of tr
      = [Req (_getCfgOnce projectId); Req (getByIds ids1 cfg);
         Req (getByIds ids2 cfg); Req (getByIds ids3 cfg)]
      /\ length ids1 = 59 /\ length ids2 = 59 /\ length ids3 = 12
      /\ (ids1 ++ ids2 ++ ids3)%list = map Task.issueId sorted
      /\ (forall c, cfg = Some c ->
                    130 <= length (flat_map fetched tr) ->
                    result respond (getFreshDataForIssueTasks tasks).2 w
                    = Returned (Spec.entries c sorted (flat_map fetched tr))).
Proof.
  intros Hlen Hall Hok sorted tr. subst sorted tr.
  unfold getFreshDataForIssueTasks, trace, result in *. cbn [fst snd] in *.
  pose proof (sortTasks_Permutation tasks) as Hperm.
  split; [done|]. split; [apply sortTasks_Sorted|].
  assert (length (sortTasks tasks) = 130) as Hlen'
      by (by rewrite (Permutation_length Hperm)).
  destruct (sortTasks tasks) as [|first rest] eqn:Hsorted; [done|].
  assert (Js.truthy (Task.projectId first) = Some projectId) as Hp.
  { rewrite Forall_forall in Hall. apply Hall.
    rewrite <- Hperm. apply list_elem_of_here. }
  destruct (respond _ (_getCfgOnce projectId) w) as [[e|cfg] w1] eqn:Hcfg.
  { exfalso. apply (Hok e). unfold refresh_sorted.
    change ((first :: rest) !! 0%nat) with (Some first).
    prog_simpl. rewrite Hp. prog_simpl. by rewrite Hcfg. }
  destruct (refresh_sorted_exec respond first rest projectId cfg w w1 Hp Hcfg)
    as (tr & o & w2 & Hexec & Hspec).
  rewrite Hexec in *. cbn [fst snd] in *.
  assert (map request_of tr
          = Spec.batch_requests cfg
              (Spec.batches (length (first :: rest)) (first :: rest))
          /\ o = Spec.check_outcome cfg (first :: rest) (flat_map fetched tr))
    as [Hreq Ho].
  { destruct o as [l|e|e|]; try done. by destruct (Hok e). }
  clear Hspec. set (sorted := first :: rest) in *.
  exists cfg, (map Task.issueId (take 59 sorted)),
    (map Task.issueId (take 59 (drop 59 sorted))),
    (map Task.issueId (take 59 (drop 118 sorted))).
  assert (Spec.batches (length sorted) sorted
          = [take 59 sorted; take 59 (drop 59 sorted); take 59 (drop 118 sorted)])
    as Hbatches.
  { rewrite Hlen'.
    rewrite batches_cons by (intros Hnil; by rewrite Hnil in Hlen').
    rewrite batches_cons by (intros Hnil%drop_nil_inv; lia).
    rewrite batches_cons
      by (intros Hnil%drop_nil_inv; rewrite length_drop in Hnil; lia).
    rewrite !drop_drop. cbn [Nat.add].
    rewrite (drop_ge sorted 177) by lia. by rewrite batches_nil. }
  split; [|split; [|split; [|split; [|split]]]].
  - cbn [map request_of]. by rewrite Hreq, Hbatches.
  - rewrite length_map, length_take. lia.
  - rewrite length_map, length_take, length_drop. lia.
  - rewrite length_map, length_take, length_drop. lia.
  - rewrite <- !map_app. f_equal.
    rewrite <- (batches_concat (length sorted) sorted) at 4 by done.
    rewrite Hbatches. cbn [concat]. by rewrite app_nil_r.
  - intros c -> Hissues. rewrite Ho. unfold Spec.check_outcome.
    cbn [flat_map fetched app] in Hissues |- *. subst sorted.
    case_decide; [done|lia].
Qed.


End RefreshClaims.

Section RefreshSamples.
#[local] Existing Instance Sample.externals.

Lemma batches_of_130_tasks_witness :
let sorted := (@getFreshDataForIssueTasks Sample.externals Sample.tasks130).1 in
let tr := trace Sample.world130 (getFreshDataForIssueTasks Sample.tasks130).2 0 in
sorted ≡ₚ Sample.tasks130
/\ Sorted (fun a b => Js.gt (issueNumber b) (issueNumber a) = false) sorted
/\ exists cfg ids1 ids2 ids3,
    map request_of tr
    = [Req (_getCfgOnce "P1"); Req (getByIds ids1 cfg);
       Req (getByIds ids2 cfg); Req (getByIds ids3 cfg)]
    /\ length ids1 = 59 /\ length ids2 = 59 /\ length ids3 = 12
    /\ (ids1 ++ ids2 ++ ids3)%list = map Task.issueId sorted
    /\ (forall c, cfg = Some c ->
                  130 <= length (flat_map fetched tr) ->
                  result Sample.world130 (getFreshDataForIssueTasks Sample.tasks130).2 0
                  = Returned (Spec.entries c sorted (flat_map fetched tr))).
Proof.
apply (@batches_of_130_tasks Sample.externals nat Sample.world130
         Sample.tasks130 "P1" 0).
- reflexivity.
- apply Forall_map, Forall_forall. reflexivity.
- intros e. vm_compute. discriminate.
Defined.

Example tasks130_first_batch :
map request_of
  (take 2 (trace Sample.world130 (getFreshDataForIssueTasks Sample.tasks130).2 0))
= [Req (_getCfgOnce "P1");
   Req (getByIds (map (fun n => Some (pretty (130 - n))) (seq 0 59))
          (Some Sample.cfg))].
Proof. vm_compute. reflexivity. Qed.



End RefreshSamples.

(** ** Issue links *)

Lemma string_length_app (s1 s2 : string) :
  String.length (s1 +:+ s2) = String.length s1 + String.length s2.
Proof.
  induction s1 as [|c s1 IH]; [done|].
  change (String c s1 +:+ s2) with (String c (s1 +:+ s2)).
  cbn [String.length]. by rewrite IH.
Qed.

Lemma trailing_slashes_le (s : string) :
  Spec.trailing_slashes s <= String.length s.
Proof.
  induction s as [|c s IH]; cbn [Spec.trailing_slashes String.length]; [done|].
  destruct (Ascii.eqb c "/" && (Spec.trailing_slashes s =? String.length s)%nat); lia.
Qed.

Lemma trailing_slashes_app_slash (s : string) :
  Spec.trailing_slashes (s +:+ "/") = S (Spec.trailing_slashes s).
Proof.
  induction s as [|c s IH]; [done|].
  change (String c s +:+ "/") with (String c (s +:+ "/")).
  cbn [Spec.trailing_slashes]. rewrite IH, string_length_app.
  cbn [String.length]. rewrite Nat.add_1_r.
  change (S (Spec.trailing_slashes s) =? S (String.length s))%nat
    with (Spec.trailing_slashes s =? String.length s)%nat.
  by destruct (Ascii.eqb c "/" && (Spec.trailing_slashes s =? String.length s)%nat).
Qed.

Lemma ends_with_slash_trailing (s : string) :
  Js.ends_with_slash s = true <-> 0 < Spec.trailing_slashes s.
Proof.
  induction s as [|c s IH]; [cbn; split; [done|lia]|].
  cbn [Js.ends_with_slash Spec.trailing_slashes].
  destruct s as [|c' s].
  - cbn. destruct (Ascii.eqb c "/"); cbn; split; done || lia.
  - rewrite IH. pose proof (trailing_slashes_le (String c' s)).
    destruct (Ascii.eqb c "/"); cbn [andb]; [|done].
    destruct (Nat.eqb_spec (Spec.trailing_slashes (String c' s))
                (String.length (String c' s))) as [Heq|Hne]; [|done].
    cbn [String.length] in *. lia.
Qed.

(** [fixedUrl] adds a slash to a base that has none and otherwise
    leaves the base as it is, with all the slashes it ends in. *)
Lemma fixedUrl_trailing_slashes (gitlabBaseUrl : string) :
  Spec.trailing_slashes (fixedUrl gitlabBaseUrl)
  = Nat.max 1 (Spec.trailing_slashes gitlabBaseUrl).
Proof.
  unfold fixedUrl. pose proof (ends_with_slash_trailing gitlabBaseUrl) as Hends.
  destruct (Js.ends_with_slash gitlabBaseUrl).
  - assert (0 < Spec.trailing_slashes gitlabBaseUrl) by by apply Hends. lia.
  - rewrite trailing_slashes_app_slash.
    destruct (Spec.trailing_slashes gitlabBaseUrl); [done|].
    assert (false = true) by (apply Hends; lia). done.
Qed.

(** [replace(/%2F/g, '/')] leaves other characters alone and turns an
    encoded separator into a slash. *)
Lemma replace_2F_cons (c : ascii) (s : string) :
  Ascii.eqb c "%" = false ->
  Js.replace_2F (String c s) = String c (Js.replace_2F s).
Proof. destruct c as [[] [] [] [] [] [] [] []]; done. Qed.

Lemma replace_2F_no_percent (s : string) :
  Spec.no_percent s = true -> Js.replace_2F s = s.
Proof.
  induction s as [|c s IH]; [done|]. cbn [Spec.no_percent].
  intros [Hc Hs]%andb_true_iff. apply negb_true_iff in Hc.
  by rewrite replace_2F_cons, IH.
Qed.

Lemma replace_2F_separator (group rest : string) :
  Spec.no_percent group = true ->
  Js.replace_2F (group +:+ "%2F" +:+ rest) = group +:+ "/" +:+ Js.replace_2F rest.
Proof.
  induction group as [|c group IH]; [done|]. cbn [Spec.no_percent].
  intros [Hc Hs]%andb_true_iff. apply negb_true_iff in Hc.
  change (String c group +:+ "%2F" +:+ rest)
    with (String c (group +:+ "%2F" +:+ rest)).
  by rewrite replace_2F_cons, IH.
Qed.

Section Links.
Context `{Externals} {W : Type}
        (respond : forall R, call R -> W -> (rejection + R) * W).

(** C6, as the code has it: with a custom base URL the link is the
    base, with a slash added when it does not end in one and with all
    its slashes when it ends in several, followed by the project as
    configured, [/issues/] and the issue id; so there is exactly one
    slash between base and project when the base ends in at most one.
    Without a custom base URL the link is [GITLAB_BASE_URL] followed
    by the project with every [%2F] turned into [/], [/issues/] and
    the issue id; only this branch decodes. *)
Theorem issueLink_slashes (issueId : Js.num) (projectId : string)
    (cfg : GitlabCfg.t) (w w1 : W) :
  respond _ (_getCfgOnce projectId) w = (inr (Some cfg), w1) ->
  match Js.truthy (GitlabCfg.gitlabBaseUrl cfg) with
  | Some base =>
      result respond (issueLink issueId projectId) w
      = Returned (fixedUrl base +:+ Js.template (GitlabCfg.project cfg)
                    +:+ "/issues/" +:+ Js.to_string issueId)
      /\ Spec.trailing_slashes (fixedUrl base)
         = Nat.max 1 (Spec.trailing_slashes base)
      /\ (Spec.trailing_slashes base <= 1 ->
          Spec.trailing_slashes (fixedUrl base) = 1)
      /\ (1 <= Spec.trailing_slashes base -> fixedUrl base = base)
      /\ (Spec.trailing_slashes base = 0 -> fixedUrl base = base +:+ "/")
  | None =>
      result respond (issueLink issueId projectId) w
      = Returned (GITLAB_BASE_URL
                    +:+ Js.template_opt_call Js.replace_2F (GitlabCfg.project cfg)
                    +:+ "/issues/" +:+ Js.to_string issueId)
  end.
Proof.
  intros Hcfg. unfold issueLink, result. prog_simpl. rewrite Hcfg. prog_simpl.
  destruct (Js.truthy (GitlabCfg.gitlabBaseUrl cfg)) as [base|]; [|done].
  split; [done|]. split; [apply fixedUrl_trailing_slashes|].
  split; [rewrite fixedUrl_trailing_slashes; lia|].
  pose proof (ends_with_slash_trailing base) as Hends. unfold fixedUrl.
  split; intros Hslash; destruct (Js.ends_with_slash base); try done.
  - assert (false = true) by (apply Hends; lia). done.
  - assert (0 < Spec.trailing_slashes base) by by apply Hends. lia.
Qed.

End Links.

Section LinkSamples.
#[local] Existing Instance Sample.externals.

(** C6 as the specification has it fails: a base URL that ends in two
    slashes keeps both. *)
Lemma issueLink_keeps_doubled_slash :
  Spec.trailing_slashes (fixedUrl "https://git.example.com//") <> 1
  /\ result (Sample.respond (Some Sample.doubled_slash_cfg) Sample.old_issue (Rx.from []))
       (issueLink (Js.Num 7) "P1") 0
     = Returned "https://git.example.com//group%2Fapp/issues/7".
Proof. split; [vm_compute; discriminate|reflexivity]. Qed.

Lemma issueLink_slashes_witness :
  result (Sample.respond (Some Sample.cfg) Sample.old_issue (Rx.from []))
    (issueLink (Js.Num 7) "P1") 0
  = Returned "https://gitlab.com/group/app/issues/7".
Proof.
  apply (issueLink_slashes
           (Sample.respond (Some Sample.cfg) Sample.old_issue (Rx.from []))
           (Js.Num 7) "P1" Sample.cfg 0 1).
  reflexivity.
Defined.

End LinkSamples.

(** * Further properties *)

(** ** Comments by others, again *)

Lemma filter_sublist {A : Type} (f : A -> bool) (l : list A) :
  List.filter f l `sublist_of` l.
Proof.
  induction l as [|x l IH]; cbn [List.filter]; [constructor|].
  destruct (f x); [by apply sublist_skip|by apply sublist_cons].
Qed.

(** The comments by others are the issue's comments with some left
    out: none is added and their order is kept; under a filter longer
    than one character none of them is by [filterUsername]. *)
Theorem commentsByOthers_sublist (cfg : GitlabCfg.t) (issue : GitlabIssue.t) :
  commentsByOthers cfg issue `sublist_of` GitlabIssue.comments issue
  /\ match GitlabCfg.filterUsername cfg with
     | Some u =>
         if (1 <? String.length u)%nat
         then Forall (fun c => GitlabComment.username (GitlabComment.author c) <> u)
                (commentsByOthers cfg issue)
         else commentsByOthers cfg issue = GitlabIssue.comments issue
     | None => commentsByOthers cfg issue = GitlabIssue.comments issue
     end.
Proof.
  unfold commentsByOthers.
  destruct (GitlabCfg.filterUsername cfg) as [u|]; [|done].
  destruct (1 <? String.length u)%nat; [|done].
  split; [apply filter_sublist|].
  apply Forall_forall. intros c Hc.
  apply list_elem_of_In, filter_In in Hc as [_ Hc]. by apply by_other_true.
Qed.

Lemma wasUpdated_without_others (cfg : GitlabCfg.t) (task : Task.t)
    (issue : GitlabIssue.t) :
  commentsByOthers cfg issue = [] ->
  wasUpdated cfg task issue
  = Js.gt (GitlabIssue.updated_at issue) (Js.or_zero (Task.issueLastUpdated task)).
Proof.
  intros Hnone. unfold wasUpdated, lastRemoteUpdate, updates, candidates.
  by rewrite Hnone.
Qed.

(** The user's own comments never make a change: when every comment is
    by [filterUsername] (longer than one character), a change is
    reported exactly when the issue's own [updated_at] is later than
    the task's [issueLastUpdated] (or than 0 when that is missing),
    however recent the comments are. *)
Theorem own_comments_never_count (cfg : GitlabCfg.t) (task : Task.t)
    (issue : GitlabIssue.t) (u : string) :
  GitlabCfg.filterUsername cfg = Some u ->
  (1 < String.length u)%nat ->
  Forall (fun c => GitlabComment.username (GitlabComment.author c) = u)
    (GitlabIssue.comments issue) ->
  commentsByOthers cfg issue = []
  /\ wasUpdated cfg task issue
     = Js.gt (GitlabIssue.updated_at issue) (Js.or_zero (Task.issueLastUpdated task)).
Proof.
  intros Hu Hlong Hown.
  assert (commentsByOthers cfg issue = []) as Hnone.
  { unfold commentsByOthers. rewrite Hu.
    destruct (Nat.ltb_spec 1 (String.length u)); [|lia].
    induction Hown as [|c cs <- _ IH]; [done|].
    cbn [List.filter]. by rewrite by_other_self. }
  split; [done|]. by apply wasUpdated_without_others.
Qed.

Lemma own_comments_never_count_witness :
  commentsByOthers Sample.cfg
    (Sample.issue 5 1700000000000 [Sample.comment "me" 1800000000000]) = []
  /\ wasUpdated Sample.cfg (Sample.task "5" 1700000000000)
       (Sample.issue 5 1700000000000 [Sample.comment "me" 1800000000000])
     = Js.gt (Js.Num 1700000000000) (Js.Num 1700000000000).
Proof.
  apply (own_comments_never_count Sample.cfg (Sample.task "5" 1700000000000)
           (Sample.issue 5 1700000000000 [Sample.comment "me" 1800000000000]) "me").
  - reflexivity.
  - cbn. lia.
  - repeat constructor.
Defined.

(** ** What the last sorted timestamp is *)

Lemma not_after_default_le (a b : Js.num) :
  Js.not_after Js.default_after a b <-> String.le (Js.to_string a) (Js.to_string b).
Proof.
  unfold Js.not_after, Js.default_after, String.le, String.ltb, String.leb.
  rewrite (String.compare_antisym (Js.to_string a) (Js.to_string b)).
  destruct (String.compare (Js.to_string b) (Js.to_string a)); cbn; split; done.
Qed.

Lemma last_in {A : Type} (l : list A) (d : A) : l <> [] -> List.last l d ∈ l.
Proof.
  induction l as [|x l IH]; intros Hne; [done|].
  destruct l as [|y l]; [apply list_elem_of_here|].
  apply list_elem_of_further. by apply IH.
Qed.

Lemma StronglySorted_last {A : Type} (R : A -> A -> Prop) (l : list A) (d : A) :
  (forall x, R x x) ->
  StronglySorted R l ->
  Forall (fun x => R x (List.last l d)) l.
Proof.
  intros Hrefl. induction 1 as [|x l Hsorted IH Hall]; [constructor|].
  destruct l as [|y l]; [by repeat constructor|].
  change (List.last (x :: y :: l) d) with (List.last (y :: l) d).
  constructor; [|done].
  rewrite Forall_forall in Hall. by apply Hall, last_in.
Qed.

Lemma sort_last_greatest (l : list Js.num) :
  l <> [] ->
  Js.last_elem (Js.sort l) ∈ l
  /\ Forall (fun t => String.le (Js.to_string t)
                        (Js.to_string (Js.last_elem (Js.sort l)))) l.
Proof.
  intros Hne. unfold Js.last_elem, Js.sort.
  pose proof (sort_by_Permutation Js.default_after l) as Hperm.
  assert (Js.sort_by Js.default_after l <> []) as Hne'.
  { intros Hnil. rewrite Hnil in Hperm. by apply Permutation_nil in Hperm. }
  split.
  { apply list_elem_of_In, (Permutation_in _ Hperm), list_elem_of_In.
    by apply last_in. }
  apply (Permutation_Forall Hperm).
  assert (Transitive (Js.not_after Js.default_after)) as Htrans.
  { intros a b c. rewrite !not_after_default_le. apply transitivity. }
  eapply Forall_impl.
  - apply (StronglySorted_last (Js.not_after Js.default_after) _ Js.NaN).
    + intros a. by apply not_after_default_le.
    + apply Sorted_StronglySorted; [done|].
      apply sort_by_Sorted, default_after_asym.
  - intros a Ha. cbn beta in Ha. by apply not_after_default_le.
Qed.

(** The time compared with the task's is one of the candidate
    timestamps, the one whose decimal numeral is greatest in string
    order: the numeral of every candidate is at most its numeral. *)
Theorem lastRemoteUpdate_greatest_numeral (cfg : GitlabCfg.t) (issue : GitlabIssue.t) :
  lastRemoteUpdate cfg issue ∈ candidates cfg issue
  /\ Forall (fun t => String.le (Js.to_string t)
                        (Js.to_string (lastRemoteUpdate cfg issue)))
       (candidates cfg issue).
Proof.
  apply sort_last_greatest. unfold candidates.
  by destruct (map GitlabComment.created_at (commentsByOthers cfg issue)).
Qed.

(** *** Invalid dates *)

Lemma pretty_N_go_head (x : N) (s : string) :
  (0 < x)%N ->
  exists (d : N) (rest : string),
    (d < 10)%N /\ pretty_N_go x s = String (pretty_N_char d) rest.
Proof.
  revert s. induction (N.lt_wf_0 x) as [x _ IH]. intros s Hx.
  rewrite pretty_N_go_step by done.
  destruct (N.eq_dec (x `div` 10)%N 0%N) as [Hzero|Hpos].
  - rewrite Hzero, pretty_N_go_0. eexists _, _. split; [|done].
    by apply N.mod_upper_bound.
  - apply IH; [by apply N.div_lt|by apply N.neq_0_lt_0].
Qed.

Lemma numeral_before_NaN (z : Z) : String.compare (pretty z) "NaN" = Lt.
Proof.
  destruct z as [|p|p]; [done| |done].
  unfold pretty, pretty_Z, pretty, pretty_positive, pretty, pretty_N.
  rewrite decide_False by done.
  destruct (pretty_N_go_head (N.pos p) "") as (d & rest & Hd & ->); [done|].
  cbn [String.compare]. unfold Ascii.compare.
  rewrite pretty_N_char_code by done.
  change (N_of_ascii "N") with 78%N.
  destruct (N.compare_spec (48 + d) 78); [lia|done|lia].
Qed.

(** A date that does not parse hides every change: when [updated_at]
    or the [created_at] of a comment by somebody else is an invalid
    date, [getTime()] is [NaN], its string sorts behind every numeral,
    and no change is reported whatever the other timestamps are. *)
Theorem invalid_date_hides_changes (cfg : GitlabCfg.t) (task : Task.t)
    (issue : GitlabIssue.t) :
  Js.NaN ∈ candidates cfg issue ->
  lastRemoteUpdate cfg issue = Js.NaN /\ wasUpdated cfg task issue = false.
Proof.
  intros Hnan.
  destruct (lastRemoteUpdate_greatest_numeral cfg issue) as [_ Hgreatest].
  rewrite Forall_forall in Hgreatest. specialize (Hgreatest _ Hnan).
  unfold wasUpdated. destruct (lastRemoteUpdate cfg issue) as [z|]; [|done].
  exfalso. unfold String.le, String.leb in Hgreatest. cbn [Js.to_string] in Hgreatest.
  rewrite (String.compare_antisym "NaN" (pretty z)), numeral_before_NaN in Hgreatest.
  done.
Qed.

Lemma invalid_date_hides_changes_witness :
  lastRemoteUpdate Sample.cfg
    (GitlabIssue.mk (Js.Num 5) "Fix bug" Js.NaN None [Sample.comment "bob" 1800000000000])
  = Js.NaN
  /\ wasUpdated Sample.cfg (Sample.task "5" 0)
       (GitlabIssue.mk (Js.Num 5) "Fix bug" Js.NaN None
          [Sample.comment "bob" 1800000000000])
     = false.
Proof.
  apply (invalid_date_hides_changes Sample.cfg (Sample.task "5" 0)
           (GitlabIssue.mk (Js.Num 5) "Fix bug" Js.NaN None
              [Sample.comment "bob" 1800000000000])).
  apply list_elem_of_further, list_elem_of_here.
Defined.

(** ** Links, again *)

(** [fixedUrl] always ends in a slash, and applying it twice adds
    nothing to applying it once. *)
Theorem fixedUrl_idempotent (gitlabBaseUrl : string) :
  Js.ends_with_slash (fixedUrl gitlabBaseUrl) = true
  /\ fixedUrl (fixedUrl gitlabBaseUrl) = fixedUrl gitlabBaseUrl.
Proof.
  assert (Js.ends_with_slash (fixedUrl gitlabBaseUrl) = true) as Hends.
  { apply ends_with_slash_trailing. rewrite fixedUrl_trailing_slashes. lia. }
  split; [done|]. unfold fixedUrl at 1. by rewrite Hends.
Qed.

Section Decoding.
Implicit Types (c : ascii) (s : string).

Lemma replace_2F_percent c s :
  Ascii.eqb c "2" = false ->
  Js.replace_2F (String "%" (String c s)) = String "%" (Js.replace_2F (String c s)).
Proof. destruct c as [[] [] [] [] [] [] [] []]; done. Qed.

Lemma replace_2F_percent_2 c s :
  Ascii.eqb c "F" = false ->
  Js.replace_2F (String "%" (String "2" (String c s)))
  = String "%" (String "2" (Js.replace_2F (String c s))).
Proof. destruct c as [[] [] [] [] [] [] [] []]; done. Qed.

Lemma occurs_2F_cons c s :
  Ascii.eqb c "%" = false ->
  Expect.occurs_2F (String c s) = Expect.occurs_2F s.
Proof. destruct c as [[] [] [] [] [] [] [] []]; done. Qed.

Lemma occurs_2F_percent c s :
  Ascii.eqb c "2" = false ->
  Expect.occurs_2F (String "%" (String c s)) = Expect.occurs_2F (String c s).
Proof. destruct c as [[] [] [] [] [] [] [] []]; done. Qed.

Lemma occurs_2F_percent_2 c s :
  Ascii.eqb c "F" = false ->
  Expect.occurs_2F (String "%" (String "2" (String c s)))
  = Expect.occurs_2F (String c s).
Proof. destruct c as [[] [] [] [] [] [] [] []]; done. Qed.

(** What the decoded text begins with: the first character, or the
    slash that replaced it. *)
Lemma replace_2F_head c s :
  exists h rest,
    Js.replace_2F (String c s) = String h rest /\ (h = c \/ h = "/"%char).
Proof.
  destruct (Ascii.eqb_spec c "%") as [->|Hc%Ascii.eqb_neq].
  - destruct s as [|c1 s]; [by eexists _, _; split; [|left]|].
    destruct (Ascii.eqb_spec c1 "2") as [->|Hc1%Ascii.eqb_neq].
    + destruct s as [|c2 s]; [by eexists _, _; split; [|left]|].
      destruct (Ascii.eqb_spec c2 "F") as [->|Hc2%Ascii.eqb_neq].
      * eexists _, _. split; [reflexivity|by right].
      * rewrite replace_2F_percent_2 by done. eexists _, _. split; [done|by left].
    + rewrite replace_2F_percent by done. eexists _, _. split; [done|by left].
  - rewrite replace_2F_cons by done. eexists _, _. split; [done|by left].
Qed.

Lemma replace_2F_leaves_none_bounded (n : nat) s :
  String.length s <= n -> Expect.occurs_2F (Js.replace_2F s) = false.
Proof.
  revert s. induction n as [|n IH]; intros s Hn.
  { destruct s; [done|cbn in Hn; lia]. }
  destruct s as [|c s]; [done|]. cbn [String.length] in Hn.
  destruct (Ascii.eqb_spec c "%") as [->|Hc%Ascii.eqb_neq].
  - destruct s as [|c1 s]; [done|].
    destruct (Ascii.eqb_spec c1 "2") as [->|Hc1].
    + destruct s as [|c2 s]; [done|]. cbn [String.length] in Hn.
      destruct (Ascii.eqb_spec c2 "F") as [->|Hc2].
      * change (Js.replace_2F (String "%" (String "2" (String "F" s))))
          with (String "/" (Js.replace_2F s)).
        rewrite occurs_2F_cons by done. apply IH. cbn [String.length] in *. lia.
      * rewrite replace_2F_percent_2 by by apply Ascii.eqb_neq.
        destruct (replace_2F_head c2 s) as (h & rest & Heq & Hh).
        specialize (IH (String c2 s) ltac:(cbn [String.length] in *; lia)). rewrite Heq in *.
        rewrite occurs_2F_percent_2; [done|].
        apply Ascii.eqb_neq. by destruct Hh as [->| ->].
    + rewrite replace_2F_percent by by apply Ascii.eqb_neq.
      destruct (replace_2F_head c1 s) as (h & rest & Heq & Hh).
      specialize (IH (String c1 s) ltac:(cbn [String.length] in *; lia)). rewrite Heq in *.
      rewrite occurs_2F_percent; [done|].
      apply Ascii.eqb_neq. by destruct Hh as [->| ->].
  - rewrite replace_2F_cons, occurs_2F_cons by done. apply IH. cbn [String.length] in *. lia.
Qed.

Lemma replace_2F_without_separator_bounded (n : nat) s :
  String.length s <= n -> Expect.occurs_2F s = false -> Js.replace_2F s = s.
Proof.
  revert s. induction n as [|n IH]; intros s Hn Hnone.
  { destruct s; [done|cbn in Hn; lia]. }
  destruct s as [|c s]; [done|]. cbn [String.length] in Hn.
  destruct (Ascii.eqb_spec c "%") as [->|Hc%Ascii.eqb_neq].
  - destruct s as [|c1 s]; [done|].
    destruct (Ascii.eqb_spec c1 "2") as [->|Hc1%Ascii.eqb_neq].
    + destruct s as [|c2 s]; [done|]. cbn [String.length] in Hn.
      destruct (Ascii.eqb_spec c2 "F") as [->|Hc2%Ascii.eqb_neq]; [done|].
      rewrite occurs_2F_percent_2 in Hnone by done.
      rewrite replace_2F_percent_2 by done. rewrite IH; [done|cbn [String.length] in *; lia|done].
    + rewrite occurs_2F_percent in Hnone by done.
      rewrite replace_2F_percent by done. rewrite IH; [done|cbn [String.length] in *; lia|done].
  - rewrite occurs_2F_cons in Hnone by done.
    rewrite replace_2F_cons by done. rewrite IH; [done|cbn [String.length] in *; lia|done].
Qed.

Lemma replace_2F_length_bounded (n : nat) s :
  String.length s <= n -> String.length (Js.replace_2F s) <= String.length s.
Proof.
  revert s. induction n as [|n IH]; intros s Hn.
  { destruct s; [done|cbn in Hn; lia]. }
  destruct s as [|c s]; [done|]. cbn [String.length] in Hn.
  destruct (Ascii.eqb_spec c "%") as [->|Hc%Ascii.eqb_neq].
  - destruct s as [|c1 s]; [done|].
    destruct (Ascii.eqb_spec c1 "2") as [->|Hc1%Ascii.eqb_neq].
    + destruct s as [|c2 s]; [done|]. cbn [String.length] in Hn.
      destruct (Ascii.eqb_spec c2 "F") as [->|Hc2%Ascii.eqb_neq].
      * change (Js.replace_2F (String "%" (String "2" (String "F" s))))
          with (String "/" (Js.replace_2F s)).
        cbn [String.length]. specialize (IH s ltac:(cbn [String.length] in *; lia)). lia.
      * rewrite replace_2F_percent_2 by done.
        specialize (IH (String c2 s) ltac:(cbn [String.length] in *; lia)).
        cbn [String.length] in *. lia.
    + rewrite replace_2F_percent by done.
      specialize (IH (String c1 s) ltac:(cbn [String.length] in *; lia)).
      cbn [String.length] in *. lia.
  - rewrite replace_2F_cons by done. cbn [String.length].
    specialize (IH s ltac:(cbn [String.length] in *; lia)). lia.
Qed.
End Decoding.

(** The decoding of the project path, [replace(/%2F/g, '/')], leaves no
    [%2F] behind, so decoding again changes nothing, and it never makes
    the text longer. *)
Theorem replace_2F_leaves_none (s : string) :
  Expect.occurs_2F (Js.replace_2F s) = false
  /\ Js.replace_2F (Js.replace_2F s) = Js.replace_2F s
  /\ String.length (Js.replace_2F s) <= String.length s.
Proof.
  assert (Expect.occurs_2F (Js.replace_2F s) = false) as Hnone
      by by apply (replace_2F_leaves_none_bounded (String.length s)).
  split; [done|]. split.
  - by apply (replace_2F_without_separator_bounded
                (String.length (Js.replace_2F s))).
  - by apply (replace_2F_length_bounded (String.length s)).
Qed.

(** A project path without [%2F] is used as it is by the default-host
    branch as well. *)
Theorem replace_2F_without_separator (s : string) :
  Expect.occurs_2F s = false -> Js.replace_2F s = s.
Proof. by apply (replace_2F_without_separator_bounded (String.length s)). Qed.

Lemma replace_2F_without_separator_witness :
  Js.replace_2F "group/app%20name" = "group/app%20name".
Proof. apply replace_2F_without_separator. reflexivity. Defined.

(** ** The methods that read the configuration *)

Lemma truthy_Some (o : option string) (s : string) :
  Js.truthy o = Some s -> o = Some s /\ s <> "".
Proof. destruct o as [[|c t]|]; cbn; [done| |done]. by intros [= <-]. Qed.

Section ConfigMethods.
Context `{Externals} {W : Type}
      (respond : forall R, call R -> W -> (rejection + R) * W).

(** A project that is [null] is written into the link as the text
  [null] behind a custom base URL and as [undefined] behind the
  default host. *)
Theorem issueLink_without_project (issueId : Js.num) (projectId : string)
  (cfg : GitlabCfg.t) (w w1 : W) :
respond _ (_getCfgOnce projectId) w = (inr (Some cfg), w1) ->
GitlabCfg.project cfg = None ->
result respond (issueLink issueId projectId) w
= Returned
    match Js.truthy (GitlabCfg.gitlabBaseUrl cfg) with
    | Some base => fixedUrl base +:+ "null/issues/" +:+ Js.to_string issueId
    | None => GITLAB_BASE_URL +:+ "undefined/issues/" +:+ Js.to_string issueId
    end.
Proof.
intros Hcfg Hproject. unfold issueLink, result. prog_simpl.
rewrite Hcfg. prog_simpl. rewrite Hproject.
by destruct (Js.truthy (GitlabCfg.gitlabBaseUrl cfg)).
Qed.

(** Without a configuration there is no link: a failed read of the
  configuration fails the link with the same failure, a [null]
  configuration is a [TypeError]; in both cases the configuration was
  the only request. *)
Theorem issueLink_without_configuration (issueId : Js.num) (projectId : string)
  (answer : rejection + option GitlabCfg.t) (w w1 : W) :
respond _ (_getCfgOnce projectId) w = (answer, w1) ->
(forall cfg, answer <> inr (Some cfg)) ->
exec respond (issueLink issueId projectId) w
= ([Ev (_getCfgOnce projectId) answer],
   match answer with inl e => Rejected e | inr _ => Threw TypeError end,
   w1).
Proof.
intros Hcfg Hnone. unfold issueLink. prog_simpl. rewrite Hcfg.
destruct answer as [e|[cfg|]]; [done| |done]. by destruct (Hnone cfg).
Qed.

(** The two polling switches ask for the configuration and nothing
  else.  They are [false] whenever [isGitlabEnabled] is, without
  looking at the flag; otherwise they are the flag
  ([isAutoAddToBacklog], [isAutoPoll]) of the configuration. *)
Theorem polling_switches (isGitlabEnabled : option GitlabCfg.t -> bool)
  (projectId : string) (w : W) :
let answer := (respond _ (_getCfgOnce projectId) w).1 in
let switch flag :=
  match answer with
  | inl e => Rejected e
  | inr cfg =>
      if isGitlabEnabled cfg
      then match cfg with
           | Some cfg => Returned (flag cfg)
           | None => Threw TypeError
           end
      else Returned false
  end in
trace respond (isBacklogPollingEnabledForProjectOnce isGitlabEnabled projectId) w
= [Ev (_getCfgOnce projectId) answer]
/\ trace respond (isIssueRefreshEnabledForProjectOnce isGitlabEnabled projectId) w
   = [Ev (_getCfgOnce projectId) answer]
/\ result respond (isBacklogPollingEnabledForProjectOnce isGitlabEnabled projectId) w
   = switch GitlabCfg.isAutoAddToBacklog
/\ result respond (isIssueRefreshEnabledForProjectOnce isGitlabEnabled projectId) w
   = switch GitlabCfg.isAutoPoll.
Proof.
cbv zeta.
unfold isBacklogPollingEnabledForProjectOnce, isIssueRefreshEnabledForProjectOnce,
  isEnabled, trace, result.
prog_simpl.
destruct (respond _ (_getCfgOnce projectId) w) as [[e|cfg] w1]; [done|].
cbn [fst]. destruct (isGitlabEnabled cfg); [|done].
by destruct cfg.
Qed.

(** [getFreshDataForIssueTask] asks exactly what [getById$] asks for
  the task's project and issue number, fails with a collaborator's
  failure exactly when [getById$] does, and the issue in its result
  is the one [getById$] gives. *)
Theorem refresh_asks_what_getById_asks (task : Task.t)
  (projectId issueId : string) (w : W) :
Js.truthy (Task.projectId task) = Some projectId ->
Js.truthy (Task.issueId task) = Some issueId ->
trace respond (getFreshDataForIssueTask task) w
= trace respond (getById' (to_number issueId) projectId) w
/\ (forall e,
      result respond (getFreshDataForIssueTask task) w = Rejected e
      <-> result respond (getById' (to_number issueId) projectId) w = Rejected e)
/\ (forall data,
      result respond (getFreshDataForIssueTask task) w = Returned (Some data) ->
      result respond (getById' (to_number issueId) projectId) w
      = Returned (FreshData.issue data)).
Proof.
intros Hp Hi. unfold getFreshDataForIssueTask, getById', trace, result.
rewrite Hp, Hi. prog_simpl.
destruct (respond _ (_getCfgOnce projectId) w) as [[e|cfg] w1];
  [cbn; repeat split; first [done|by intros [= ->]|by intros ? [=]]|].
destruct (respond _ (getById (to_number issueId) cfg) w1) as [[e|issue] w2];
  [cbn; repeat split; first [done|by intros [= ->]|by intros ? [=]]|].
destruct cfg as [cfg|]; prog_simpl; [|cbn; repeat split; first [done|by intros [= ->]|by intros ? [=]]].
destruct (wasUpdated cfg task issue); cbn; repeat split; try done.
by intros data [= <-].
Qed.

(** With the configuration and the issue at hand the method makes these
  two requests and returns [null] exactly when no change is detected;
  otherwise it returns the fetched issue itself, the changes for the
  task and, as [issueTitle], the truncated ["#" + number + " " +
  title]. *)
Theorem getFreshDataForIssueTask_result (task : Task.t)
  (projectId issueId : string) (cfg : GitlabCfg.t) (issue : GitlabIssue.t)
  (w w1 w2 : W) :
Js.truthy (Task.projectId task) = Some projectId ->
Js.truthy (Task.issueId task) = Some issueId ->
respond _ (_getCfgOnce projectId) w = (inr (Some cfg), w1) ->
respond _ (getById (to_number issueId) (Some cfg)) w1 = (inr issue, w2) ->
trace respond (getFreshDataForIssueTask task) w
= [Ev (_getCfgOnce projectId) (inr (Some cfg));
   Ev (getById (to_number issueId) (Some cfg)) (inr issue)]
/\ (result respond (getFreshDataForIssueTask task) w = Returned None
    <-> wasUpdated cfg task issue = false)
/\ (wasUpdated cfg task issue = true ->
    result respond (getFreshDataForIssueTask task) w
    = Returned (Some {|
        FreshData.taskChanges :=
          TaskChanges.with_issueWasUpdated true (getAddTaskData issue);
        FreshData.issue := issue;
        FreshData.issueTitle :=
          truncate ("#" +:+ Js.to_string (GitlabIssue.number issue)
                        +:+ " " +:+ GitlabIssue.title issue) |})).
Proof.
intros Hp Hi Hcfg Hissue. unfold getFreshDataForIssueTask, trace, result.
rewrite Hp, Hi. prog_simpl. rewrite Hcfg, Hissue. prog_simpl.
destruct (wasUpdated cfg task issue); cbn; repeat split; done.
Qed.

(** What goes wrong for one task after the two guards: a failed read
  of the configuration ends the method before the API is asked; a
  failure of the API ends it with that failure; and with a [null]
  configuration the API is still asked, with [null], before the
  method ends with a [TypeError]. *)
Theorem getFreshDataForIssueTask_failures (task : Task.t)
  (projectId issueId : string) (w : W) :
Js.truthy (Task.projectId task) = Some projectId ->
Js.truthy (Task.issueId task) = Some issueId ->
match respond _ (_getCfgOnce projectId) w with
| (inl e, w1) =>
    exec respond (getFreshDataForIssueTask task) w
    = ([Ev (_getCfgOnce projectId) (inl e)], Rejected e, w1)
| (inr cfg, w1) =>
    match respond _ (getById (to_number issueId) cfg) w1 with
    | (inl e, w2) =>
        exec respond (getFreshDataForIssueTask task) w
        = ([Ev (_getCfgOnce projectId) (inr cfg);
            Ev (getById (to_number issueId) cfg) (inl e)], Rejected e, w2)
    | (inr issue, w2) =>
        cfg = None ->
        exec respond (getFreshDataForIssueTask task) w
        = ([Ev (_getCfgOnce projectId) (inr None);
            Ev (getById (to_number issueId) None) (inr issue)],
           Threw TypeError, w2)
    end
end.
Proof.
intros Hp Hi. unfold getFreshDataForIssueTask. rewrite Hp, Hi. prog_simpl.
destruct (respond _ (_getCfgOnce projectId) w) as [[e|cfg] w1]; [done|].
destruct (respond _ (getById (to_number issueId) cfg) w1) as [[e|issue] w2];
  [done|].
by intros ->.
Qed.

(** A search that the API answers without an error is handed on as it
  is. *)
Theorem searchIssues_passes_results_on (searchTerm projectId : string)
  (cfg : GitlabCfg.t) (found : Observable (list SearchResultItem)) (w w1 w2 : W) :
respond _ (_getCfgOnce projectId) w = (inr (Some cfg), w1) ->
GitlabCfg.isSearchIssuesFromGitlab cfg = true ->
respond _ (searchIssueInProject searchTerm (Some cfg)) w1 = (inr found, w2) ->
ends found = Completes ->
result respond (searchIssues searchTerm projectId) w = Returned found.
Proof.
intros Hcfg Hallowed Hfound Hends. unfold searchIssues, result. prog_simpl.
rewrite Hcfg, Hallowed. prog_simpl. rewrite Hfound.
unfold Rx.catchError. by rewrite Hends.
Qed.

(** What the search does not swallow: a failed read of the
  configuration fails the search, before the API is asked; and so
  does a call of the API that fails before it gives a stream. *)
Theorem searchIssues_failures_kept (searchTerm projectId : string) (w : W) :
match respond _ (_getCfgOnce projectId) w with
| (inl e, w1) =>
    exec respond (searchIssues searchTerm projectId) w
    = ([Ev (_getCfgOnce projectId) (inl e)], Rejected e, w1)
| (inr (Some cfg), w1) =>
    GitlabCfg.isSearchIssuesFromGitlab cfg = true ->
    forall e w2,
      respond _ (searchIssueInProject searchTerm (Some cfg)) w1 = (inl e, w2) ->
      result respond (searchIssues searchTerm projectId) w = Rejected e
| (inr None, w1) => True
end.
Proof.
unfold searchIssues, result. prog_simpl.
destruct (respond _ (_getCfgOnce projectId) w) as [[e|[cfg|]] w1]; [done| |done].
intros -> e w2 Hfound. prog_simpl. by rewrite Hfound.
Qed.
End ConfigMethods.

Section ConfigMethodSamples.
#[local] Existing Instance Sample.externals.

Lemma issueLink_without_project_witness :
result (Sample.respond (Some Failing.no_project_cfg) Sample.old_issue (Rx.from []))
  (issueLink (Js.Num 7) "P1") 0
= Returned "https://git.example.com/null/issues/7".
Proof.
apply (issueLink_without_project
         (Sample.respond (Some Failing.no_project_cfg) Sample.old_issue (Rx.from []))
         (Js.Num 7) "P1" Failing.no_project_cfg 0 1); reflexivity.
Defined.

Lemma issueLink_without_configuration_witness :
exec Failing.offline (issueLink (Js.Num 7) "P1") 0
= ([Ev (_getCfgOnce "P1") (inl "offline")], Rejected "offline", 1).
Proof.
apply (issueLink_without_configuration Failing.offline (Js.Num 7) "P1"
         (inl "offline") 0 1); [reflexivity|discriminate].
Defined.

Lemma refresh_asks_what_getById_asks_witness :
trace Sample.world130 (getFreshDataForIssueTask (Sample.task "5" 0)) 0
= trace Sample.world130 (getById' (Js.Num 5) "P1") 0.
Proof.
apply (refresh_asks_what_getById_asks Sample.world130 (Sample.task "5" 0)
         "P1" "5" 0); reflexivity.
Defined.

Lemma getFreshDataForIssueTask_result_witness :
trace Sample.world130 (getFreshDataForIssueTask (Sample.task "5" 0)) 0
= [Ev (_getCfgOnce "P1") (inr (Some Sample.cfg));
   Ev (getById (Js.Num 5) (Some Sample.cfg)) (inr (Sample.recent_issue (Js.Num 5)))]
/\ (result Sample.world130 (getFreshDataForIssueTask (Sample.task "5" 1800000000000)) 0
    = Returned None).
Proof.
split.
- apply (getFreshDataForIssueTask_result Sample.world130 (Sample.task "5" 0)
           "P1" "5" Sample.cfg (Sample.recent_issue (Js.Num 5)) 0 1 2);
    reflexivity.
- apply (getFreshDataForIssueTask_result Sample.world130
           (Sample.task "5" 1800000000000)
           "P1" "5" Sample.cfg (Sample.recent_issue (Js.Num 5)) 0 1 2);
    reflexivity.
Defined.

Lemma getFreshDataForIssueTask_failures_witness :
exec Failing.api_down (getFreshDataForIssueTask (Sample.task "5" 0)) 0
= ([Ev (_getCfgOnce "P1") (inr (Some Sample.cfg));
    Ev (getById (Js.Num 5) (Some Sample.cfg)) (inl "502 Bad Gateway")],
   Rejected "502 Bad Gateway", 2).
Proof.
exact (getFreshDataForIssueTask_failures Failing.api_down (Sample.task "5" 0)
         "P1" "5" 0 eq_refl eq_refl).
Defined.

Lemma searchIssues_passes_results_on_witness :
result (Sample.respond (Some Sample.cfg) Sample.old_issue (Rx.of_ ["#5 Fix bug"]))
  (searchIssues "bug" "P1") 0
= Returned (Rx.of_ ["#5 Fix bug"]).
Proof.
apply (searchIssues_passes_results_on
         (Sample.respond (Some Sample.cfg) Sample.old_issue (Rx.of_ ["#5 Fix bug"]))
         "bug" "P1" Sample.cfg (Rx.of_ ["#5 Fix bug"]) 0 1 2); reflexivity.
Defined.

Lemma searchIssues_failures_kept_witness :
result Failing.api_down (searchIssues "bug" "P1") 0 = Rejected "502 Bad Gateway".
Proof.
exact (searchIssues_failures_kept Failing.api_down "bug" "P1" 0 eq_refl
         "502 Bad Gateway" 2 eq_refl).
Defined.
End ConfigMethodSamples.

(** ** Many tasks at once *)

Lemma batches_count {A : Type} (fuel : nat) (l : list A) :
  length l <= fuel ->
  length (Spec.batches fuel l) = Expect.batch_count (length l).
Proof.
  unfold Expect.batch_count.
  revert l. induction fuel as [|fuel IH]; intros l Hfuel.
  - by destruct l; [|cbn in Hfuel; lia].
  - destruct l as [|x l]; [done|].
    rewrite batches_cons by done. cbn [length] in *.
    rewrite IH by (rewrite length_drop; cbn [length]; lia).
    rewrite length_drop. cbn [length].
    destruct (Nat.le_gt_cases 59 (S (length l))) as [Hmany|Hfew].
    + replace (S (length l) + 58) with ((S (length l) - 59 + 58) + 1 * 59) by lia.
      rewrite Nat.div_add by done. lia.
    + replace (S (length l) - 59 + 58) with 58 by lia.
      rewrite <- (Nat.div_unique (S (length l) + 58) 59 1 (length l)); [done|lia|lia].
Qed.

Lemma entries_tasks_sublist (cfg : GitlabCfg.t) (tasks : list Task.t)
    (issues : list GitlabIssue.t) :
  map UpdatedIssue.task (Spec.entries cfg tasks issues) `sublist_of` tasks.
Proof.
  revert issues. induction tasks as [|task tasks IH]; intros issues.
  - unfold Spec.entries. cbn. constructor.
  - destruct issues as [|issue issues].
    + unfold Spec.entries. cbn. apply sublist_nil_l.
    + rewrite entries_cons. unfold Spec.entry. cbn [fst snd].
      destruct (wasUpdated cfg task issue); cbn [app map UpdatedIssue.task].
      * apply sublist_skip, IH.
      * apply sublist_cons, IH.
Qed.

Section ManyTasks.
Context `{Externals} {W : Type}
      (respond : forall R, call R -> W -> (rejection + R) * W).

(** In every run the requests before the last were answered, and a
  method that ends with a collaborator's failure ends on the request
  that failed. *)
Lemma exec_answered {A : Type} (p : prog A) (w : W) :
match result respond p w with
| Rejected e =>
    exists (tr0 : list event) (R : Type) (c : call R),
      trace respond p w = (tr0 ++ [Ev c (inl e)])%list
      /\ Forall Expect.answered tr0
| _ => Forall Expect.answered (trace respond p w)
end.
Proof.
unfold result, trace. revert w.
induction p as [a|e| |R c k IH]; intros w; cbn [exec fst snd]; try by constructor.
destruct (respond R c w) as [[e|r] w1]; cbn [fst snd].
- by exists [], R, c.
- specialize (IH r w1). destruct (exec respond (k r) w1) as [[tr o] w2].
  cbn [fst snd] in *. destruct o as [a|e|e|]; try by constructor.
  destruct IH as (tr0 & R' & c' & -> & Hanswered).
  exists (Ev c (inr r) :: tr0), R', c'. split; [done|]. by constructor.
Qed.

Lemma refresh_exec (tasks : list Task.t) (projectId : string)
  (cfg : option GitlabCfg.t) (w w1 : W) :
tasks <> [] ->
Forall (fun task => Js.truthy (Task.projectId task) = Some projectId) tasks ->
respond _ (_getCfgOnce projectId) w = (inr cfg, w1) ->
exists tr o w2,
  exec respond (getFreshDataForIssueTasks tasks).2 w
  = (Ev (_getCfgOnce projectId) (inr cfg) :: tr, o, w2)
  /\ match o with
     | Rejected _ =>
         exists n,
           map request_of tr
           = take n (Spec.batch_requests cfg
                       (Spec.batches (length (sortTasks tasks)) (sortTasks tasks)))
     | OutOfFuel => False
     | _ =>
         map request_of tr
         = Spec.batch_requests cfg
             (Spec.batches (length (sortTasks tasks)) (sortTasks tasks))
         /\ o = Spec.check_outcome cfg (sortTasks tasks) (flat_map fetched tr)
     end.
Proof.
intros Hne Hall Hcfg. unfold getFreshDataForIssueTasks. cbn [snd].
pose proof (sortTasks_Permutation tasks) as Hperm.
destruct (sortTasks tasks) as [|first rest] eqn:Hsorted.
{ apply Permutation_nil in Hperm. done. }
apply (refresh_sorted_exec respond first rest projectId cfg w w1); [|done].
rewrite Forall_forall in Hall. apply Hall.
rewrite <- Hperm. apply list_elem_of_here.
Qed.

Lemma refresh_rejected_at_once (tasks : list Task.t) (projectId : string)
  (e : rejection) (w w1 : W) :
tasks <> [] ->
Forall (fun task => Js.truthy (Task.projectId task) = Some projectId) tasks ->
respond _ (_getCfgOnce projectId) w = (inl e, w1) ->
exec respond (getFreshDataForIssueTasks tasks).2 w
= ([Ev (_getCfgOnce projectId) (inl e)], Rejected e, w1).
Proof.
intros Hne Hall Hcfg. unfold getFreshDataForIssueTasks. cbn [snd].
pose proof (sortTasks_Permutation tasks) as Hperm.
destruct (sortTasks tasks) as [|first rest] eqn:Hsorted.
{ apply Permutation_nil in Hperm. done. }
assert (Js.truthy (Task.projectId first) = Some projectId) as Hp.
{ rewrite Forall_forall in Hall. apply Hall.
  rewrite <- Hperm. apply list_elem_of_here. }
unfold refresh_sorted. change ((first :: rest) !! 0%nat) with (Some first).
prog_simpl. rewrite Hp. prog_simpl. by rewrite Hcfg.
Qed.

(** For any number of tasks of one project, when no request fails: the
  requests are the configuration and then one [getByIds] per batch of
  the sorted tasks; the batches are not empty, hold at most 59 tasks,
  put end to end are the sorted tasks, and there are
  [ceil(tasks.length / 59)] of them.  The method ends as the
  comparison of the sorted tasks with all fetched issues does. *)
Theorem getFreshDataForIssueTasks_batches (tasks : list Task.t)
  (projectId : string) (w : W) :
tasks <> [] ->
Forall (fun task => Js.truthy (Task.projectId task) = Some projectId) tasks ->
(forall e, result respond (getFreshDataForIssueTasks tasks).2 w <> Rejected e) ->
let sorted := (getFreshDataForIssueTasks tasks).1 in
let tr := trace respond (getFreshDataForIssueTasks tasks).2 w in
let batches := Spec.batches (length sorted) sorted in
(exists cfg,
    map request_of tr
    = Req (_getCfgOnce projectId) :: Spec.batch_requests cfg batches
    /\ result respond (getFreshDataForIssueTasks tasks).2 w
       = Spec.check_outcome cfg sorted (flat_map fetched tr))
/\ Forall (fun batch => 0 < length batch <= 59) batches
/\ concat batches = sorted
/\ length batches = Expect.batch_count (length tasks).
Proof.
intros Hne Hall Hok sorted tr batches. subst sorted tr batches.
split; [|split; [apply batches_bounded|split; [by apply batches_concat|]]].
- unfold result, trace in *. cbn [fst].
  destruct (respond _ (_getCfgOnce projectId) w) as [[e|cfg] w1] eqn:Hcfg.
  { destruct (Hok e). by rewrite (refresh_rejected_at_once tasks projectId e w w1). }
  destruct (refresh_exec tasks projectId cfg w w1 Hne Hall Hcfg)
    as (tr & o & w2 & Hexec & Hspec).
  change (getFreshDataForIssueTasks tasks).1 with (sortTasks tasks).
  rewrite Hexec in *. cbn [fst snd] in *. exists cfg.
  cbn [map request_of flat_map fetched app].
  destruct o as [l|e|e|]; try done; [| |by destruct (Hok e)].
  + destruct Hspec as [Hreq Ho]. by rewrite Hreq.
  + destruct Hspec as [Hreq Ho]. by rewrite Hreq.
- rewrite batches_count by done.
  change (getFreshDataForIssueTasks tasks).1 with (sortTasks tasks).
  by rewrite (Permutation_length (sortTasks_Permutation tasks)).
Qed.

(** When the API gives fewer issues than there are tasks, the method
  still makes all its requests and then ends with a [TypeError], the
  read of [updated_at] on the issue that is missing; nothing is
  returned for the tasks that did have an issue. *)
Theorem missing_issue_is_a_TypeError (tasks : list Task.t)
  (projectId : string) (w : W) :
tasks <> [] ->
Forall (fun task => Js.truthy (Task.projectId task) = Some projectId) tasks ->
(forall e, result respond (getFreshDataForIssueTasks tasks).2 w <> Rejected e) ->
length (flat_map fetched (trace respond (getFreshDataForIssueTasks tasks).2 w))
  < length tasks ->
result respond (getFreshDataForIssueTasks tasks).2 w = Threw TypeError
/\ length (trace respond (getFreshDataForIssueTasks tasks).2 w)
   = S (Expect.batch_count (length tasks)).
Proof.
intros Hne Hall Hok Hfew. unfold result, trace in *.
destruct (respond _ (_getCfgOnce projectId) w) as [[e|cfg] w1] eqn:Hcfg.
{ destruct (Hok e). by rewrite (refresh_rejected_at_once tasks projectId e w w1). }
destruct (refresh_exec tasks projectId cfg w w1 Hne Hall Hcfg)
  as (tr & o & w2 & Hexec & Hspec).
rewrite Hexec in *. cbn [fst snd flat_map fetched app length] in *.
assert (map request_of tr
        = Spec.batch_requests cfg
            (Spec.batches (length (sortTasks tasks)) (sortTasks tasks))
        /\ o = Spec.check_outcome cfg (sortTasks tasks) (flat_map fetched tr))
  as [Hreq ->].
{ destruct o as [l|e|e|]; try done. by destruct (Hok e). }
split.
- unfold Spec.check_outcome.
  pose proof (Permutation_length (sortTasks_Permutation tasks)) as Hlen.
  destruct (sortTasks tasks) as [|first rest]; [by destruct tasks|].
  destruct cfg as [cfg|]; [|done]. case_decide; [lia|done].
- f_equal. rewrite <- (length_map request_of), Hreq.
  unfold Spec.batch_requests. rewrite length_map, batches_count by done.
  by rewrite (Permutation_length (sortTasks_Permutation tasks)).
Qed.

(** When a request fails, the method fails with it on the spot: the
  failed request is the last one made, every request before it was
  answered, and the requests made are the configuration and the
  batches in order up to the failed one; no batch is skipped and
  nothing is returned for the batches already fetched. *)
Theorem getFreshDataForIssueTasks_rejected (tasks : list Task.t)
  (projectId : string) (e : rejection) (w : W) :
tasks <> [] ->
Forall (fun task => Js.truthy (Task.projectId task) = Some projectId) tasks ->
result respond (getFreshDataForIssueTasks tasks).2 w = Rejected e ->
let sorted := (getFreshDataForIssueTasks tasks).1 in
let tr := trace respond (getFreshDataForIssueTasks tasks).2 w in
(exists (tr0 : list event) (R : Type) (c : call R),
    tr = (tr0 ++ [Ev c (inl e)])%list /\ Forall Expect.answered tr0)
/\ exists cfg n,
    map request_of tr
    = take (S n) (Req (_getCfgOnce projectId)
                    :: Spec.batch_requests cfg
                         (Spec.batches (length sorted) sorted)).
Proof.
intros Hne Hall Hrejected sorted tr. subst sorted tr. split.
- pose proof (exec_answered (getFreshDataForIssueTasks tasks).2 w) as Hlast.
  by rewrite Hrejected in Hlast.
- unfold result, trace in *. cbn [fst].
  destruct (respond _ (_getCfgOnce projectId) w) as [[e'|cfg] w1] eqn:Hcfg.
  + rewrite (refresh_rejected_at_once tasks projectId e' w w1) by done.
    by exists None, 0.
  + destruct (refresh_exec tasks projectId cfg w w1 Hne Hall Hcfg)
      as (tr & o & w2 & Hexec & Hspec).
    rewrite Hexec in *. cbn [fst snd] in *. subst o.
    destruct Hspec as [n Hreq]. exists cfg, n. cbn [map request_of take].
    by rewrite Hreq.
Qed.

(** The entries of the result come in the order of the sorted tasks,
  one at most for each task: their tasks are the sorted tasks with
  some left out. *)
Theorem changed_tasks_in_sorted_order (tasks : list Task.t)
  (changed : list UpdatedIssue.t) (w : W) :
result respond (getFreshDataForIssueTasks tasks).2 w = Returned changed ->
map UpdatedIssue.task changed `sublist_of` (getFreshDataForIssueTasks tasks).1
/\ length changed <= length tasks.
Proof.
intros Hresult.
assert (map UpdatedIssue.task changed `sublist_of` sortTasks tasks) as Hsub.
{ unfold getFreshDataForIssueTasks, result in Hresult. cbn [snd] in Hresult.
  destruct (sortTasks tasks) as [|first rest] eqn:Hsorted; [done|].
  destruct (Js.truthy (Task.projectId first)) as [projectId|] eqn:Hp;
    [|by rewrite refresh_sorted_no_projectId in Hresult].
  destruct (respond _ (_getCfgOnce projectId) w) as [[e|cfg] w1] eqn:Hcfg.
  { unfold refresh_sorted in Hresult.
    change ((first :: rest) !! 0%nat) with (Some first) in Hresult.
    prog_simpl. rewrite Hp in Hresult. prog_simpl. by rewrite Hcfg in Hresult. }
  destruct (refresh_sorted_exec respond first rest projectId cfg w w1 Hp Hcfg)
    as (tr & o & w2 & Hexec & Hspec).
  rewrite Hexec in Hresult. cbn [fst snd] in Hresult. subst o.
  destruct Hspec as [_ Ho]. unfold Spec.check_outcome in Ho.
  destruct cfg as [c|]; [|done]. case_decide; [|done].
  injection Ho as ->. apply entries_tasks_sublist. }
split; [done|].
apply sublist_length in Hsub. rewrite length_map in Hsub.
by rewrite (Permutation_length (sortTasks_Permutation tasks)) in Hsub.
Qed.

(** Sorting is done once and for all: the array a call leaves behind
  is left as it is by every later call. *)
Theorem sorted_array_stays (tasks : list Task.t) :
(getFreshDataForIssueTasks (getFreshDataForIssueTasks tasks).1).1
= (getFreshDataForIssueTasks tasks).1.
Proof.
unfold getFreshDataForIssueTasks. cbn [fst].
apply sortTasks_sorted_id, sortTasks_Sorted.
Qed.

(** One task gives the same answer both ways: when the API gives the
  same issue to [getById$] and to [getByIds$] of the one id, the
  result for the list of that task is empty where the result for the
  task is [null], and otherwise is the single entry with the same
  changes and the same issue. *)
Theorem one_task_both_ways (task : Task.t) (projectId issueId : string)
  (cfg : GitlabCfg.t) (issue : GitlabIssue.t) (w w1 w2 w3 : W) :
Js.truthy (Task.projectId task) = Some projectId ->
Js.truthy (Task.issueId task) = Some issueId ->
respond _ (_getCfgOnce projectId) w = (inr (Some cfg), w1) ->
respond _ (getById (to_number issueId) (Some cfg)) w1 = (inr issue, w2) ->
respond _ (getByIds [Some issueId] (Some cfg)) w1 = (inr [issue], w3) ->
exists one : option FreshData.t,
  result respond (getFreshDataForIssueTask task) w = Returned one
  /\ result respond (getFreshDataForIssueTasks [task]).2 w
     = Returned
         match one with
         | Some data =>
             [{| UpdatedIssue.task := task;
                 UpdatedIssue.taskChanges := FreshData.taskChanges data;
                 UpdatedIssue.issue := FreshData.issue data |}]
         | None => []
         end.
Proof.
intros Hp Hi Hcfg Hone Hmany.
apply truthy_Some in Hi as Hid. destruct Hid as [Hid _].
unfold getFreshDataForIssueTask, getFreshDataForIssueTasks, result.
rewrite Hp, Hi. prog_simpl. rewrite Hcfg, Hone. prog_simpl.
change (sortTasks [task]) with [task]. cbn [snd].
unfold refresh_sorted. change ([task] !! 0%nat) with (Some task).
prog_simpl. rewrite Hp. prog_simpl. rewrite Hcfg.
cbn [length fetch_loop]. change (0 <? 1)%nat with true. cbv iota.
rewrite collect_ids_eq. unfold paramsCount.
change (take 59 (drop 0 [task])) with [task]. cbn [length map app Nat.add].
rewrite Hid. prog_simpl. rewrite Hmany.
cbn [bind exec fetch_loop length app]. change (1 <? 1)%nat with false. cbv iota.
cbn [bind exec seq check_loop]. unfold check_one.
change ([issue] !! 0%nat) with (Some issue).
change ([task] !! 0%nat) with (Some task). prog_simpl.
destruct (wasUpdated cfg task issue); cbn; by eexists.
Qed.
End ManyTasks.

Section ManyTasksSamples.
#[local] Existing Instance Sample.externals.

Lemma getFreshDataForIssueTasks_batches_witness :
let sorted := (getFreshDataForIssueTasks Sample.tasks130).1 in
let batches := Spec.batches (length sorted) sorted in
Forall (fun batch => 0 < length batch <= 59) batches
/\ concat batches = sorted
/\ length batches = 3.
Proof.
apply (getFreshDataForIssueTasks_batches Sample.world130 Sample.tasks130 "P1" 0).
- discriminate.
- apply Forall_map, Forall_forall. reflexivity.
- intros e. vm_compute. discriminate.
Defined.

Lemma missing_issue_is_a_TypeError_witness :
result Failing.one_issue_per_batch (getFreshDataForIssueTasks Sample.tasks130).2 0
= Threw TypeError
/\ length (trace Failing.one_issue_per_batch
             (getFreshDataForIssueTasks Sample.tasks130).2 0)
   = 4.
Proof.
apply (missing_issue_is_a_TypeError Failing.one_issue_per_batch
         Sample.tasks130 "P1" 0).
- discriminate.
- apply Forall_map, Forall_forall. reflexivity.
- intros e. vm_compute. discriminate.
- vm_compute. lia.
Defined.

Lemma getFreshDataForIssueTasks_rejected_witness :
let sorted := (getFreshDataForIssueTasks Sample.tasks130).1 in
let tr := trace Failing.second_batch_fails
            (getFreshDataForIssueTasks Sample.tasks130).2 0 in
(exists (tr0 : list event) (R : Type) (c : call R),
    tr = (tr0 ++ [Ev c (inl "502 Bad Gateway")])%list
    /\ Forall Expect.answered tr0)
/\ exists cfg n,
    map request_of tr
    = take (S n) (Req (_getCfgOnce "P1")
                    :: Spec.batch_requests cfg
                         (Spec.batches (length sorted) sorted)).
Proof.
apply (getFreshDataForIssueTasks_rejected Failing.second_batch_fails
         Sample.tasks130 "P1" "502 Bad Gateway" 0).
- discriminate.
- apply Forall_map, Forall_forall. reflexivity.
- vm_compute. reflexivity.
Defined.

Example second_batch_fails_after_three_requests :
length (trace Failing.second_batch_fails
          (getFreshDataForIssueTasks Sample.tasks130).2 0) = 3.
Proof. vm_compute. reflexivity. Qed.

Lemma changed_tasks_in_sorted_order_witness :
[Sample.task "7" 0]
  `sublist_of` (getFreshDataForIssueTasks
                  [Sample.task "5" 1800000000000; Sample.task "7" 0]).1.
Proof.
apply (changed_tasks_in_sorted_order Sample.world130
         [Sample.task "5" 1800000000000; Sample.task "7" 0]
         [ {| UpdatedIssue.task := Sample.task "7" 0;
              UpdatedIssue.taskChanges :=
                Spec.payload (Sample.recent_issue (Js.Num 7));
              UpdatedIssue.issue := Sample.recent_issue (Js.Num 7) |} ]
         0).
reflexivity.
Defined.

Lemma one_task_both_ways_witness :
exists one : option FreshData.t,
  result Sample.world130 (getFreshDataForIssueTask (Sample.task "5" 0)) 0
  = Returned one
  /\ result Sample.world130 (getFreshDataForIssueTasks [Sample.task "5" 0]).2 0
     = Returned
         match one with
         | Some data =>
             [{| UpdatedIssue.task := Sample.task "5" 0;
                 UpdatedIssue.taskChanges := FreshData.taskChanges data;
                 UpdatedIssue.issue := FreshData.issue data |}]
         | None => []
         end.
Proof.
apply (one_task_both_ways Sample.world130 (Sample.task "5" 0) "P1" "5"
         Sample.cfg (Sample.recent_issue (Js.Num 5)) 0 1 2 2); reflexivity.
Defined.
End ManyTasksSamples.
